(** * The attachment manager of the chat client

    A shallow embedding of [frontend/src/scripts/attachments.ts]: the
    [AttachmentManager] object, its pending-attachment array and the
    operations that add, remove and clear attachments.

    Modelling decisions.
    - The manager object is a record [Manager]; its methods are computations
      of a small state-and-trace monad [M]: the state is the manager, the
      trace records what the method shows to the user and the host
      ([alert], [console], the preview refresh).
    - A browser [Blob] is a size, a declared type and a byte accessor; a
      [File] is a blob with a name.  The code never reads the bytes itself:
      only the content sniffer and the compressor do.
    - [fileTypeFromBlob] (package file-type) and
      [ImageCompressor.compressAttachment] (module ./image) are parameters
      of the development: a function to an optional detection, and a
      function to a blob or a thrown error.
    - A method is one transition of the manager: what it does when no
      other call runs before it has finished (the handlers [await] each
      call of a batch before the next).  The image path of [addAttachment]
      gives control back once, at the [await] of the compressor;
      [addImageUntilAwait] and [resumeImage] are its two pieces, for calls
      that overlap.
    - Sizes and lengths are natural numbers ([N], [nat]); an array position
      handed to [splice] is any integer ([Z]).  File names and MIME types
      are strings of ASCII characters. *)

From Stdlib Require Import ZArith NArith Ascii String Lia.
From Stdlib Require Import DecimalString DecimalPos DecimalN.
From Stdlib.Strings Require Import Byte.
From stdpp Require Import base relations list strings.

Local Open Scope Z_scope.

(** ** JavaScript strings and arrays *)

Module JS.

(** [String.prototype.toLowerCase], on ASCII letters: [A]-[Z] are
    mapped, every other character is kept.  On a name with characters
    outside ASCII the source also maps those that have a lower-case form. *)
Definition lower_ascii (c : ascii) : ascii :=
  let n := N_of_ascii c in
  if ((65 <=? n) && (n <=? 90))%N then ascii_of_N (n + 32) else c.

Fixpoint toLowerCase (s : string) : string :=
  match s with
  | EmptyString => EmptyString
  | String c s' => String (lower_ascii c) (toLowerCase s')
  end.

(** [s.split(sep)] for a one-character separator: never empty. *)
Fixpoint split (sep : ascii) (s : string) : list string :=
  match s with
  | EmptyString => [EmptyString]
  | String c s' =>
      if Ascii.eqb c sep then EmptyString :: split sep s'
      else match split sep s' with
           | [] => [String c EmptyString]
           | p :: ps => String c p :: ps
           end
  end.

(** [parts.pop()]: the last element, [undefined] on an empty array. *)
Definition pop {A} (l : list A) : option A := last l.

(** [s.startsWith(p)]. *)
Fixpoint startsWith (p s : string) : bool :=
  match p, s with
  | EmptyString, _ => true
  | String a p', String b s' => Ascii.eqb a b && startsWith p' s'
  | String _ _, EmptyString => false
  end.

(** [s.indexOf(sub)]: the first position where [sub] occurs, or [-1]. *)
Fixpoint str_indexOf_from (pos : Z) (sub s : string) : Z :=
  if startsWith sub s then pos
  else match s with
       | EmptyString => -1
       | String _ s' => str_indexOf_from (pos + 1) sub s'
       end.

Definition str_indexOf (sub s : string) : Z := str_indexOf_from 0 sub s.

(** [s.includes(sub)]. *)
Definition includes (sub s : string) : bool :=
  negb (str_indexOf sub s =? -1).

(** [arr.indexOf(x)] on an array of strings (strict equality). *)
Fixpoint arr_indexOf_from (pos : Z) (x : string) (arr : list string) : Z :=
  match arr with
  | [] => -1
  | y :: arr' => if String.eqb y x then pos else arr_indexOf_from (pos + 1) x arr'
  end.

Definition arr_indexOf (x : string) (arr : list string) : Z :=
  arr_indexOf_from 0 x arr.

(** Truthiness of a string: the empty string is falsy. *)
Definition truthy (s : string) : bool :=
  match s with EmptyString => false | String _ _ => true end.

(** [arr.splice(start, deleteCount)], the array left behind.  A negative
    [start] counts from the end; the start is clamped to [0 .. length]. *)
Definition splice {A} (start deleteCount : Z) (arr : list A) : list A :=
  let len := Z.of_nat (length arr) in
  let actualStart :=
    if start <? 0 then Z.max (len + start) 0 else Z.min start len in
  let actualDeleteCount := Z.min (Z.max deleteCount 0) (len - actualStart) in
  take (Z.to_nat actualStart) arr
    ++ drop (Z.to_nat (actualStart + actualDeleteCount)) arr.

End JS.

(** ** Blobs and files *)

Record Blob := mkBlob {
  blob_size : N;
  blob_type : string;
  blob_byte : N -> byte
}.

Record File := mkFile {
  file_blob : Blob;
  file_name : string
}.

Definition file_size (f : File) : N := blob_size (file_blob f).
Definition file_type (f : File) : string := blob_type (file_blob f).

(** [new File([blob], name, { type })]. *)
Definition newFile (b : Blob) (name ty : string) : File :=
  mkFile (mkBlob (blob_size b) ty (blob_byte b)) name.

(** The bytes of a blob, in order. *)
Definition blob_bytes (b : Blob) : list byte :=
  map (fun i => blob_byte b (N.of_nat i)) (seq 0 (N.to_nat (blob_size b))).

Definition file_bytes (f : File) : list byte := blob_bytes (file_blob f).

(** ** Attachments *)

Inductive AttachmentType := TImage | TFile | TYoutube | TWikipedia.

#[global] Instance AttachmentType_eq_dec : EqDecision AttachmentType.
Proof. solve_decision. Defined.

Record Attachment := mkAttachment {
  att_type : AttachmentType;
  att_file : option File;
  att_url : option string;
  att_name : option string;
  textContent : option string;
  extension : option string;
  sizeBytes : option N
}.

(** The object literals the code pushes. *)
Definition fileRecord (ty : AttachmentType) (f : File) (name : string) : Attachment :=
  mkAttachment ty (Some f) None (Some name) None None None.

Definition linkRecord (ty : AttachmentType) (url : string) : Attachment :=
  mkAttachment ty None (Some url) None None None None.

Record CompressionOptions := mkOptions {
  quality : Z;
  maxWidthOrHeight : Z
}.

Record Settings := mkSettings {
  compressAttachedImages : bool;
  compressionQuality : Z;
  compressionMaxDimension : Z
}.

Record Manager := mkManager {
  attachments : list Attachment;
  useSearch : bool;
  useDatabase : bool;
  compressImages : bool;
  compressionOptions : CompressionOptions
}.

(** The object literal [AttachmentManager] before [init]. *)
Definition AttachmentManager : Manager :=
  mkManager [] false false true (mkOptions 85 2048).

Definition set_attachments (l : list Attachment) (m : Manager) : Manager :=
  mkManager l (useSearch m) (useDatabase m) (compressImages m) (compressionOptions m).

(** ** What a method shows: alerts, console lines, preview refreshes *)

(** The messages passed to [alert], one constructor per call site, with
    the values interpolated into the text. *)
Inductive AlertMsg :=
| UnsupportedFileType (ext : string)
| NotTextDetected (ext mime : string)
| BinaryMimeType (mime : string)
| FileTooLarge (size : N)
| TotalFileSizeExceeded
| UnsupportedImageFormat (mime : string)
| ImageTooLarge (size : N)
| TooManyImages
| InvalidYoutubeUrl
| InvalidWikipediaUrl.

Inductive ConsoleMsg :=
| Initialized
| SkippingNonImage (name : string)
| Compressing (name : string) (size : N)
| Compressed (name : string) (size newSize : N)
| CompressionIncreasedSize (name : string)
| CompressionFailed (error : string).

Inductive Effect :=
| Alert (m : AlertMsg)
| Console (m : ConsoleMsg)
| Preview (shown : list Attachment).

(** The reasons for turning a candidate away, as the design names them;
    [reason] files each alert of the code under one of them. *)
Inductive Rejection :=
| UnsupportedFormat
| BinaryContentDetected
| SizeExceeded
| CountLimitReached
| InvalidLink.

Definition reason (m : AlertMsg) : Rejection :=
  match m with
  | UnsupportedFileType _ | UnsupportedImageFormat _ => UnsupportedFormat
  | NotTextDetected _ _ | BinaryMimeType _ => BinaryContentDetected
  | FileTooLarge _ | TotalFileSizeExceeded | ImageTooLarge _ => SizeExceeded
  | TooManyImages => CountLimitReached
  | InvalidYoutubeUrl | InvalidWikipediaUrl => InvalidLink
  end.

(** The alerts of a trace, in order. *)
Fixpoint alerts (t : list Effect) : list AlertMsg :=
  match t with
  | [] => []
  | Alert m :: t' => m :: alerts t'
  | _ :: t' => alerts t'
  end.

(** ** The monad of the methods *)

Definition M (A : Type) : Type := Manager -> A * Manager * list Effect.

Definition ret {A} (a : A) : M A := fun st => (a, st, []).

Definition bind {A B} (m : M A) (k : A -> M B) : M B :=
  fun st =>
    let '(a, st1, t1) := m st in
    let '(b, st2, t2) := k a st1 in
    (b, st2, t1 ++ t2).

Declare Scope js_scope.
Delimit Scope js_scope with js.
Notation "'let*' x ':=' m 'in' k" := (bind m (fun x => k))
  (at level 10, x name, m at level 100, k at level 200) : js_scope.
Notation "m ';;;' k" := (bind m (fun _ => k))
  (at level 100, k at level 200, right associativity) : js_scope.

Definition this {A} (field : Manager -> A) : M A := fun st => (field st, st, []).
Definition assign (upd : Manager -> Manager) : M unit := fun st => (tt, upd st, []).
Definition emit (e : Effect) : M unit := fun st => (tt, st, [e]).

Definition alert (m : AlertMsg) : M unit := emit (Alert m).
Definition console (m : ConsoleMsg) : M unit := emit (Console m).

(** [this.attachments.push(a)]. *)
Definition push (a : Attachment) : M unit :=
  assign (fun st => set_attachments (attachments st ++ [a]) st).

(** The final manager and the trace of a run. *)
Definition exec {A} (m : M A) (st : Manager) : Manager := snd (fst (m st)).
Definition trace {A} (m : M A) (st : Manager) : list Effect := snd (m st).

(** [for (const x of xs) await body(x)]. *)
Fixpoint forEach {A} (body : A -> M unit) (xs : list A) : M unit :=
  match xs with
  | [] => ret tt
  | x :: xs' => (body x ;;; forEach body xs')%js
  end.

(** ** Constants and the pure helpers of the manager *)

Definition MAX_FILE_SIZE_BYTES : N := 10 * 1024 * 1024.
Definition MAX_TOTAL_FILE_SIZE_BYTES : N := 10 * 1024 * 1024.
Definition MAX_SIZE_BYTES : N := 10 * 1024 * 1024.
Definition MAX_IMAGES : nat := 8.

Definition SUPPORTED_TEXT_EXTENSIONS : list string :=
  [ "js"; "jsx"; "ts"; "tsx"; "py"; "java"; "rb"; "php"; "cs"; "go"; "rs";
    "c"; "cpp"; "h"; "hpp";
    "sh"; "bash";
    "html"; "css"; "scss"; "sass"; "vue"; "svelte";
    "json"; "yaml"; "yml"; "toml"; "ini"; "env";
    "csv"; "xml"; "sql";
    "md"; "mdx"; "txt"; "log" ].

Definition SUPPORTED_TYPES : list string :=
  [ "image/jpeg"; "image/png"; "image/webp"; "image/gif" ].

Definition SAFE_TEXT_MIME_TYPES : list string :=
  [ "text/plain"; "text/html"; "text/css"; "text/javascript"; "text/csv";
    "text/xml"; "text/markdown"; "application/json"; "application/xml";
    "application/x-yaml"; "text/x-yaml"; "application/javascript";
    "application/x-sh" ].

Definition getFileExtension (filename : string) : string :=
  let parts := JS.split "." filename in
  if (1 <? length parts)%nat
  then match JS.pop parts with
       | Some e => JS.toLowerCase e
       | None => ""
       end
  else "".

Definition isSupportedTextFile (extension : string) : bool :=
  negb (JS.arr_indexOf extension SUPPORTED_TEXT_EXTENSIONS =? -1).

Definition isTextMimeType (mimeType : string) : bool :=
  if JS.str_indexOf "text/" mimeType =? 0 then true
  else negb (JS.arr_indexOf mimeType SAFE_TEXT_MIME_TYPES =? -1).

(** [a.file?.size || 0]. *)
Definition sizeOrZero (a : Attachment) : N :=
  match att_file a with
  | Some f => file_size f
  | None => 0%N
  end.

(** [attachments.filter(a => a.type === 'file')
       .reduce((sum, a) => sum + (a.file?.size || 0), 0)]. *)
Definition currentTotalSize (atts : list Attachment) : N :=
  foldl (fun sum a => (sum + sizeOrZero a)%N) 0%N
        (filter (fun a => att_type a = TFile) atts).

(** [attachments.filter(att => att.type === 'image').length]. *)
Definition currentImageCount (atts : list Attachment) : nat :=
  length (filter (fun a => att_type a = TImage) atts).

(** ** The methods *)

(** The [type] argument of [addAttachment]: ['image' | 'file']. *)
Inductive FileKind := KImage | KFile.

Definition kindType (k : FileKind) : AttachmentType :=
  match k with KImage => TImage | KFile => TFile end.

Definition isImageKind (k : FileKind) : bool :=
  match k with KImage => true | KFile => false end.

(** What [fileTypeFromBlob] resolves to when it recognises a format. *)
Record FileTypeResult := mkFileType { ft_ext : string; ft_mime : string }.

(** The outcome of awaiting a call that may throw. *)
Inductive Completion (A : Type) :=
| Returned (a : A)
| Thrown (error : string).
Arguments Returned {A} a.
Arguments Thrown {A} error.

Section Methods.

Local Open Scope js_scope.

(** The content sniffer and the image compressor the manager calls. *)
Variable fileTypeFromBlob : File -> option FileTypeResult.
Variable compressAttachment : File -> CompressionOptions -> Completion Blob.

Definition updateAttachmentPreview : M unit :=
  let* atts := this attachments in
  emit (Preview atts).

(** Lines 226-261 of [addAttachment]: compress when asked to, push, refresh. *)
Definition compressAndPush (type : FileKind) (file : File) : M unit :=
  let* compress := this compressImages in
  let* options := this compressionOptions in
  let* processedFile :=
    if isImageKind type && compress && JS.startsWith "image/" (file_type file)
    then
      console (Compressing (file_name file) (file_size file)) ;;;
      match compressAttachment file options with
      | Returned compressedBlob =>
          if (blob_size compressedBlob <? file_size file)%N
          then
            let processedFile :=
              newFile compressedBlob (file_name file) (blob_type compressedBlob) in
            console (Compressed (file_name file) (file_size file)
                                (file_size processedFile)) ;;;
            ret processedFile
          else
            console (CompressionIncreasedSize (file_name file)) ;;;
            ret file
      | Thrown error =>
          console (CompressionFailed error) ;;;
          ret file
      end
    else ret file in
  push (fileRecord (kindType type) processedFile (file_name file)) ;;;
  updateAttachmentPreview.

Definition addAttachment (type : FileKind) (file : File) : M unit :=
  match type with
  | KFile =>
      let extension := getFileExtension (file_name file) in
      if negb (isSupportedTextFile extension)
      then alert (UnsupportedFileType extension)
      else
        match fileTypeFromBlob file with
        | Some detectedType =>
            alert (NotTextDetected (ft_ext detectedType) (ft_mime detectedType))
        | None =>
            if JS.truthy (file_type file) && negb (isTextMimeType (file_type file))
            then alert (BinaryMimeType (file_type file))
            else if (MAX_FILE_SIZE_BYTES <? file_size file)%N
            then alert (FileTooLarge (file_size file))
            else
              let* atts := this attachments in
              if (MAX_TOTAL_FILE_SIZE_BYTES <? currentTotalSize atts + file_size file)%N
              then alert TotalFileSizeExceeded
              else
                push (fileRecord TFile file (file_name file)) ;;;
                updateAttachmentPreview
        end
  | KImage =>
      if JS.arr_indexOf (file_type file) SUPPORTED_TYPES =? -1
      then alert (UnsupportedImageFormat (file_type file))
      else if (MAX_SIZE_BYTES <? file_size file)%N
      then alert (ImageTooLarge (file_size file))
      else
        let* atts := this attachments in
        if (MAX_IMAGES <=? currentImageCount atts)%nat
        then alert TooManyImages
        else compressAndPush KImage file
  end.

Definition addYoutubeLink (url : string) : M unit :=
  push (linkRecord TYoutube url) ;;;
  updateAttachmentPreview.

Definition addWikipediaLink (url : string) : M unit :=
  push (linkRecord TWikipedia url) ;;;
  updateAttachmentPreview.

Definition removeAttachment (index : Z) : M unit :=
  assign (fun st => set_attachments (JS.splice index 1 (attachments st)) st) ;;;
  updateAttachmentPreview.

Definition clearAttachments : M unit :=
  assign (set_attachments []) ;;;
  updateAttachmentPreview.

(** [prompt] answers with the text typed, or [null] when dismissed. *)
Definition showYoutubeModal (answer : option string) : M unit :=
  match answer with
  | Some url =>
      if JS.truthy url
         && (JS.includes "youtube.com" url || JS.includes "youtu.be" url)
      then addYoutubeLink url
      else if JS.truthy url then alert InvalidYoutubeUrl
      else ret tt
  | None => ret tt
  end.

Definition showWikipediaModal (answer : option string) : M unit :=
  match answer with
  | Some url =>
      if JS.truthy url && JS.includes "wikipedia.org" url
      then addWikipediaLink url
      else if JS.truthy url then alert InvalidWikipediaUrl
      else ret tt
  | None => ret tt
  end.

(** [init], and the listeners it installs. *)
Definition init (settings : Settings) : M unit :=
  assign (fun st =>
    mkManager (attachments st) (useSearch st) (useDatabase st)
      (compressAttachedImages settings)
      (mkOptions (compressionQuality settings) (compressionMaxDimension settings))) ;;;
  console Initialized.

Definition onCompressToggle (checked : bool) : M unit :=
  assign (fun st =>
    mkManager (attachments st) (useSearch st) (useDatabase st) checked
      (compressionOptions st)).

Definition onQualityInput (value : Z) : M unit :=
  assign (fun st =>
    mkManager (attachments st) (useSearch st) (useDatabase st) (compressImages st)
      (mkOptions value (maxWidthOrHeight (compressionOptions st)))).

Definition onDimensionInput (value : Z) : M unit :=
  assign (fun st =>
    mkManager (attachments st) (useSearch st) (useDatabase st) (compressImages st)
      (mkOptions (quality (compressionOptions st)) value)).

Definition onImageInputChange (files : list File) : M unit :=
  forEach (fun file =>
    if JS.startsWith "image/" (file_type file)
    then addAttachment KImage file
    else console (SkippingNonImage (file_name file))) files.

Definition onFileInputChange (files : list File) : M unit :=
  forEach (fun file => addAttachment KFile file) files.

(** Every way the host drives the manager. *)
Inductive Op :=
| OpInit (settings : Settings)
| OpCompressToggle (checked : bool)
| OpQualityInput (value : Z)
| OpDimensionInput (value : Z)
| OpImageInputChange (files : list File)
| OpFileInputChange (files : list File)
| OpAddAttachment (type : FileKind) (file : File)
| OpAddYoutubeLink (url : string)
| OpAddWikipediaLink (url : string)
| OpShowYoutubeModal (answer : option string)
| OpShowWikipediaModal (answer : option string)
| OpRemoveAttachment (index : Z)
| OpClearAttachments.

Definition run (op : Op) : M unit :=
  match op with
  | OpInit settings => init settings
  | OpCompressToggle checked => onCompressToggle checked
  | OpQualityInput value => onQualityInput value
  | OpDimensionInput value => onDimensionInput value
  | OpImageInputChange files => onImageInputChange files
  | OpFileInputChange files => onFileInputChange files
  | OpAddAttachment type file => addAttachment type file
  | OpAddYoutubeLink url => addYoutubeLink url
  | OpAddWikipediaLink url => addWikipediaLink url
  | OpShowYoutubeModal answer => showYoutubeModal answer
  | OpShowWikipediaModal answer => showWikipediaModal answer
  | OpRemoveAttachment index => removeAttachment index
  | OpClearAttachments => clearAttachments
  end.

(** The managers the host can bring about, starting from the literal,
    when every call has finished before the next one is made. *)
Inductive reachable : Manager -> Prop :=
| reachable_start : reachable AttachmentManager
| reachable_step st op : reachable st -> reachable (exec (run op) st).

End Methods.

(** ** The image path around its [await]

    [addAttachment('image', file)] runs in one piece up to
    [await ImageCompressor.compressAttachment(...)] (line 233) and is
    resumed with what the compressor settled to; calls made meanwhile run
    in between.  With compression off the image path has no [await]. *)

Inductive Suspension :=
| Settled
| AwaitingCompressor (file : File) (options : CompressionOptions).

Section Suspended.

Local Open Scope js_scope.

Variable compressAttachment : File -> CompressionOptions -> Completion Blob.

(** Lines 202-236: the checks, then either the push (no compression) or
    the call of the compressor. *)
Definition addImageUntilAwait (file : File) : M Suspension :=
  if JS.arr_indexOf (file_type file) SUPPORTED_TYPES =? -1
  then alert (UnsupportedImageFormat (file_type file)) ;;; ret Settled
  else if (MAX_SIZE_BYTES <? file_size file)%N
  then alert (ImageTooLarge (file_size file)) ;;; ret Settled
  else
    let* atts := this attachments in
    if (MAX_IMAGES <=? currentImageCount atts)%nat
    then alert TooManyImages ;;; ret Settled
    else
      let* compress := this compressImages in
      let* options := this compressionOptions in
      if isImageKind KImage && compress && JS.startsWith "image/" (file_type file)
      then
        console (Compressing (file_name file) (file_size file)) ;;;
        ret (AwaitingCompressor file options)
      else
        push (fileRecord (kindType KImage) file (file_name file)) ;;;
        updateAttachmentPreview ;;;
        ret Settled.

(** Lines 238-261: what runs once the compressor has settled. *)
Definition resumeImage (s : Suspension) : M unit :=
  match s with
  | Settled => ret tt
  | AwaitingCompressor file options =>
      let* processedFile :=
        match compressAttachment file options with
        | Returned compressedBlob =>
            if (blob_size compressedBlob <? file_size file)%N
            then
              let processedFile :=
                newFile compressedBlob (file_name file) (blob_type compressedBlob) in
              console (Compressed (file_name file) (file_size file)
                                  (file_size processedFile)) ;;;
              ret processedFile
            else
              console (CompressionIncreasedSize (file_name file)) ;;;
              ret file
        | Thrown error =>
            console (CompressionFailed error) ;;;
            ret file
        end in
      push (fileRecord (kindType KImage) processedFile (file_name file)) ;;;
      updateAttachmentPreview
  end.

End Suspended.

(** ** Well-formed UTF-8

    The byte sequences a strict UTF-8 decoder accepts (Unicode, table 3-7:
    no overlong forms, no surrogates, nothing above U+10FFFF). *)

Module Utf8.

Local Open Scope N_scope.

Definition between (lo hi b : N) : bool := (lo <=? b) && (b <=? hi).

Definition continuation (b : N) : bool := between 0x80 0xBF b.

(** The second byte allowed after a three-byte or four-byte lead. *)
Definition second3 (lead b : N) : bool :=
  if lead =? 0xE0 then between 0xA0 0xBF b
  else if lead =? 0xED then between 0x80 0x9F b
  else continuation b.

Definition second4 (lead b : N) : bool :=
  if lead =? 0xF0 then between 0x90 0xBF b
  else if lead =? 0xF4 then between 0x80 0x8F b
  else continuation b.

Fixpoint wellformed (bs : list N) : bool :=
  match bs with
  | [] => true
  | b0 :: r0 =>
      if b0 <=? 0x7F then wellformed r0
      else if between 0xC2 0xDF b0 then
        match r0 with
        | b1 :: r1 => continuation b1 && wellformed r1
        | _ => false
        end
      else if between 0xE0 0xEF b0 then
        match r0 with
        | b1 :: b2 :: r2 => second3 b0 b1 && continuation b2 && wellformed r2
        | _ => false
        end
      else if between 0xF0 0xF4 b0 then
        match r0 with
        | b1 :: b2 :: b3 :: r3 =>
            second4 b0 b1 && continuation b2 && continuation b3 && wellformed r3
        | _ => false
        end
      else false
  end.

Definition decodable (bs : list byte) : bool := wellformed (map Byte.to_N bs).

End Utf8.

(** ** Stand-ins for the two collaborators, and sample files *)

(** A blob holding the given bytes. *)
Definition blobOf (bs : list byte) (ty : string) : Blob :=
  mkBlob (N.of_nat (length bs)) ty (fun i => nth (N.to_nat i) bs x00).

(** A blob of [size] bytes, all equal to [b]. *)
Definition filledBlob (size : N) (b : byte) (ty : string) : Blob :=
  mkBlob size ty (fun _ => b).

(** Does the content start with the signature? *)
Definition hasSignature (sig : list N) (b : Blob) : bool :=
  (N.of_nat (length sig) <=? blob_size b)%N
  && forallb (fun iv => (Byte.to_N (blob_byte b (N.of_nat (fst iv))) =? snd iv)%N)
             (imap pair sig).

(** A sniffer that, like file-type, recognises a format by the signature
    at the start of the content and answers nothing otherwise. *)
Definition signatureSniffer (f : File) : option FileTypeResult :=
  let b := file_blob f in
  if hasSignature [0x89; 0x50; 0x4E; 0x47; 0x0D; 0x0A; 0x1A; 0x0A]%N b
  then Some (mkFileType "png" "image/png")
  else if hasSignature [0xFF; 0xD8; 0xFF]%N b
  then Some (mkFileType "jpg" "image/jpeg")
  else if hasSignature [0x47; 0x49; 0x46; 0x38]%N b
  then Some (mkFileType "gif" "image/gif")
  else if hasSignature [0x25; 0x50; 0x44; 0x46]%N b
  then Some (mkFileType "pdf" "application/pdf")
  else if hasSignature [0x50; 0x4B; 0x03; 0x04]%N b
  then Some (mkFileType "zip" "application/zip")
  else None.

(** Compressors: one that always throws, one that returns a JPEG a tenth
    of the size, one that returns its input unchanged. *)
Definition failingCompressor (f : File) (o : CompressionOptions) : Completion Blob :=
  Thrown "canvas unavailable".

Definition shrinkingCompressor (f : File) (o : CompressionOptions) : Completion Blob :=
  Returned (mkBlob (file_size f / 10) "image/jpeg" (blob_byte (file_blob f))).

Definition idleCompressor (f : File) (o : CompressionOptions) : Completion Blob :=
  Returned (file_blob f).

Definition MiB : N := 1024 * 1024.

(** The text "caf" followed by an e-acute in Latin-1 (byte E9). *)
Definition latin1Note : File :=
  mkFile (blobOf [x63; x61; x66; xe9] "text/plain") "notes.txt".

Definition pngSignature : list byte := [x89; x50; x4e; x47; x0d; x0a; x1a; x0a].

(** PNG content under a text name, and under its own name. *)
Definition pngNamedTxt : File := mkFile (blobOf pngSignature "text/plain") "logo.txt".
Definition pngNamedPng : File := mkFile (blobOf pngSignature "image/png") "logo.png".

(** A plain text file and a PNG image of a given size. *)
Definition textFile (name : string) (size : N) : File :=
  mkFile (filledBlob size x61 "text/plain") name.

Definition pngImage (name : string) (size : N) : File :=
  mkFile (filledBlob size x00 "image/png") name.

(** Candidates that fail an early check: a bitmap image, an executable,
    a video of 11 MiB. *)
Definition bmpImage : File := mkFile (filledBlob 2048 x00 "image/bmp") "scan.bmp".



(** A manager whose array already holds the given attachments. *)
Definition holding (atts : list Attachment) : Manager :=
  set_attachments atts AttachmentManager.

Definition eightImages : list Attachment :=
  replicate 8 (fileRecord TImage (pngImage "photo.png" 2048) "photo.png").

Definition sevenImages : list Attachment :=
  replicate 7 (fileRecord TImage (pngImage "photo.png" 2048) "photo.png").

Definition twoLinks : list Attachment :=
  [ linkRecord TYoutube "https://youtu.be/abc123";
    linkRecord TWikipedia "https://en.wikipedia.org/wiki/Kea" ].

Definition threeTextFiles : list Attachment :=
  [ fileRecord TFile (textFile "a.txt" (3 * MiB)) "a.txt";
    fileRecord TFile (textFile "b.txt" (3 * MiB)) "b.txt";
    fileRecord TFile (textFile "c.txt" (3 * MiB)) "c.txt" ].

(** ** Numbers in and out of strings *)

Module JSNumber.

(** [String(n)] for a non-negative integer: its decimal digits. *)
Definition toString (n : N) : string := NilZero.string_of_uint (N.to_uint n).

(** The white space [parseInt] skips (tab, line feed, vertical tab, form
    feed, carriage return, space). *)
Definition isWhiteSpace (c : ascii) : bool :=
  let n := N_of_ascii c in
  ((9 <=? n) && (n <=? 13) || (n =? 32))%N.

Fixpoint trimStart (s : string) : string :=
  match s with
  | EmptyString => EmptyString
  | String c s' => if isWhiteSpace c then trimStart s' else s
  end.

Definition digitValue (c : ascii) : option N :=
  let n := N_of_ascii c in
  if ((48 <=? n) && (n <=? 57))%N then Some (n - 48)%N else None.

(** The value of the longest run of decimal digits at the start of [s]. *)
Fixpoint parseDigits (acc : N) (s : string) : N :=
  match s with
  | EmptyString => acc
  | String c s' =>
      match digitValue c with
      | Some d => parseDigits (acc * 10 + d) s'
      | None => acc
      end
  end.

Definition startsWithDigit (s : string) : bool :=
  match s with
  | EmptyString => false
  | String c _ => match digitValue c with Some _ => true | None => false end
  end.

(** [parseInt(s, 10)]; [None] stands for [NaN]. *)
Definition parseInt (s : string) : option Z :=
  let s1 := trimStart s in
  let '(sign, s2) :=
    match s1 with
    | String "-" r => (-1, r)
    | String "+" r => (1, r)
    | _ => (1, s1)
    end in
  if startsWithDigit s2 then Some (sign * Z.of_N (parseDigits 0 s2)) else None.

End JSNumber.

(** ** The indicator, the icons and the remove buttons of the preview *)

(** [updateIndicator]: the class name given to the plus icon. *)
Definition updateIndicator (st : Manager) : string :=
  if useDatabase st && useSearch st then "bi bi-stars fs-5 text-kea"
  else if useDatabase st then "bi bi-database fs-5 text-info"
  else if useSearch st then "bi bi-search fs-5 text-warning"
  else "bi bi-plus-circle fs-5".

Definition KNOWN_ICONS : list string :=
  [ "cs"; "java"; "js"; "jsx"; "php"; "py"; "rb"; "sh"; "tsx";
    "css"; "html"; "sass"; "scss";
    "csv"; "json"; "md"; "sql"; "txt"; "xml"; "yml"; "yaml";
    "ts"; "go"; "rs"; "c"; "cpp"; "vue" ].

Definition getFileIcon (extension : string) : string :=
  if negb (JS.arr_indexOf extension KNOWN_ICONS =? -1)
  then "bi bi-filetype-" +:+ extension
  else "bi bi-file-earmark-code".

(** The text the preview interpolates for the attachment at position
    [index] in [data-attachment-index="${index}"] (line 330): the
    decimal numeral of the position.  The markup around it, and what the
    browser makes of it when a name carries markup of its own, is not
    modelled. *)
Definition attachmentIndexText (index : nat) : string :=
  JSNumber.toString (N.of_nat index).

(** The click listener of a close button:
    [parseInt(target.dataset.attachmentIndex || '0', 10)], then
    [removeAttachment]; [splice] takes [NaN] for [0]. *)
Definition onRemoveClick (attachmentIndex : option string) : M unit :=
  let text :=
    match attachmentIndex with
    | Some s => if JS.truthy s then s else "0"
    | None => "0"
    end in
  match JSNumber.parseInt text with
  | Some index => removeAttachment index
  | None => removeAttachment 0
  end.

(** The array drawn by the last preview refresh of a trace, if there was
    one. *)
Fixpoint lastShown (t : list Effect) : option (list Attachment) :=
  match t with
  | [] => None
  | e :: t' =>
      match lastShown t' with
      | Some shown => Some shown
      | None => match e with Preview shown => Some shown | _ => None end
      end
  end.

(** ** The moves on the array, with the guards they passed

    As [arrayStep] below, but a committed image or file carries the checks
    that let it through. *)
Inductive guardedStep (sniff : File -> option FileTypeResult)
  : list Attachment -> list Attachment -> Prop :=
| guarded_image atts file stored :
    file_type file ∈ SUPPORTED_TYPES ->
    (file_size file <= MAX_SIZE_BYTES)%N ->
    (currentImageCount atts < MAX_IMAGES)%nat ->
    (file_size stored <= file_size file)%N ->
    file_name stored = file_name file ->
    guardedStep sniff atts (atts ++ [fileRecord TImage stored (file_name file)])
| guarded_file atts file :
    isSupportedTextFile (getFileExtension (file_name file)) = true ->
    sniff file = None ->
    file_type file = EmptyString \/ isTextMimeType (file_type file) = true ->
    (file_size file <= MAX_FILE_SIZE_BYTES)%N ->
    (currentTotalSize atts + file_size file <= MAX_TOTAL_FILE_SIZE_BYTES)%N ->
    guardedStep sniff atts (atts ++ [fileRecord TFile file (file_name file)])
| guarded_youtube atts url :
    guardedStep sniff atts (atts ++ [linkRecord TYoutube url])
| guarded_wikipedia atts url :
    guardedStep sniff atts (atts ++ [linkRecord TWikipedia url])
| guarded_splice atts index :
    guardedStep sniff atts (JS.splice index 1 atts)
| guarded_clear atts :
    guardedStep sniff atts [].

(** ** What one call can do to the array

    The moves the methods make on [attachments]: push an image record
    while fewer than [MAX_IMAGES] images are held, push a file record, push
    a link record, splice one position out, or empty the array. *)
Inductive arrayStep : list Attachment -> list Attachment -> Prop :=
| step_image atts f name :
    (currentImageCount atts < MAX_IMAGES)%nat ->
    arrayStep atts (atts ++ [fileRecord TImage f name])
| step_file atts f name :
    arrayStep atts (atts ++ [fileRecord TFile f name])
| step_youtube atts url :
    arrayStep atts (atts ++ [linkRecord TYoutube url])
| step_wikipedia atts url :
    arrayStep atts (atts ++ [linkRecord TWikipedia url])
| step_splice atts index :
    arrayStep atts (JS.splice index 1 atts)
| step_clear atts :
    arrayStep atts [].

(** [sub] occurs somewhere inside [s]. *)
Definition occurs (sub s : string) : Prop :=
  exists pre post, s = pre +:+ sub +:+ post.

(** * Properties *)

(** ** The string and array primitives *)

Lemma startsWith_spec p s :
  JS.startsWith p s = true <-> exists post, s = p +:+ post.
Proof.
  revert s; induction p as [|a p IH]; intros s; simpl.
  - split; [intros _; by exists s | done].
  - destruct s as [|b s]; simpl.
    + split; [done | intros [post H]; discriminate].
    + rewrite andb_true_iff, Ascii.eqb_eq, IH. split.
      * intros [-> [post ->]]. by exists post.
      * intros [post H]. injection H as -> ->. split; [done | by exists post].
Qed.

Lemma str_indexOf_from_unfold pos sub s :
  JS.str_indexOf_from pos sub s =
    if JS.startsWith sub s then pos
    else match s with
         | EmptyString => -1
         | String _ s' => JS.str_indexOf_from (pos + 1) sub s'
         end.
Proof. by destruct s. Qed.

Lemma occurs_head sub s : JS.startsWith sub s = true -> occurs sub s.
Proof.
  intros [post ->]%startsWith_spec. by exists EmptyString, post.
Qed.

Lemma occurs_tail a sub s :
  occurs sub (String a s) -> JS.startsWith sub (String a s) = false -> occurs sub s.
Proof.
  intros (pre & post & H) Hno. destruct pre as [|b pre]; simpl in H.
  - assert (JS.startsWith sub (String a s) = true) as Hyes
      by (apply startsWith_spec; by exists post).
    congruence.
  - injection H as _ ->. by exists pre, post.
Qed.

Lemma str_indexOf_from_cases sub s pos :
  0 <= pos ->
  (JS.str_indexOf_from pos sub s = -1 /\ ~ occurs sub s)
  \/ (pos <= JS.str_indexOf_from pos sub s /\ occurs sub s).
Proof.
  revert pos; induction s as [|a s IH]; intros pos Hpos;
    rewrite str_indexOf_from_unfold;
    destruct (JS.startsWith sub _) eqn:Hsw.
  - right. split; [lia | by apply occurs_head].
  - left. split; [done |]. intros (pre & post & H).
    destruct pre; [|discriminate]. simpl in H.
    assert (JS.startsWith sub EmptyString = true) as Hyes
      by (apply startsWith_spec; by exists post).
    congruence.
  - right. split; [lia | by apply occurs_head].
  - destruct (IH (pos + 1)) as [[Hm Hn]|[Hle Ho]]; [lia | |].
    + left. split; [done |]. intros Ho. apply Hn. by eapply occurs_tail.
    + right. split; [lia |]. destruct Ho as (pre & post & ->).
      by exists (String a pre), post.
Qed.

Lemma includes_spec sub s : JS.includes sub s = true <-> occurs sub s.
Proof.
  unfold JS.includes, JS.str_indexOf.
  destruct (str_indexOf_from_cases sub s 0) as [[Hm Hn]|[Hle Ho]]; [lia | |].
  - rewrite Hm. simpl. split; [done | intros; by exfalso].
  - destruct (Z.eqb_spec (JS.str_indexOf_from 0 sub s) (-1)); [lia |].
    simpl. by split.
Qed.

Lemma includes_false sub s : JS.includes sub s = false <-> ~ occurs sub s.
Proof.
  rewrite <- includes_spec. destruct (JS.includes sub s); naive_solver.
Qed.

Lemma str_indexOf_at_start sub s :
  JS.str_indexOf sub s = 0 <-> JS.startsWith sub s = true.
Proof.
  unfold JS.str_indexOf. rewrite str_indexOf_from_unfold.
  destruct (JS.startsWith sub s) eqn:Hsw; [done |].
  split; [|done]. destruct s as [|a s]; [done |].
  change (0 + 1) with 1. intros H.
  destruct (str_indexOf_from_cases sub s 1) as [[Hm _]|[Hle _]]; lia.
Qed.

Lemma arr_indexOf_from_cases x arr pos :
  0 <= pos ->
  (JS.arr_indexOf_from pos x arr = -1 /\ x ∉ arr)
  \/ (pos <= JS.arr_indexOf_from pos x arr /\ x ∈ arr).
Proof.
  revert pos; induction arr as [|y arr IH]; intros pos Hpos; simpl.
  - left. split; [done | apply not_elem_of_nil].
  - destruct (String.eqb_spec y x) as [->|Hne].
    + right. split; [lia | apply list_elem_of_here].
    + destruct (IH (pos + 1)) as [[Hm Hn]|[Hle Hin]]; [lia | |].
      * left. split; [done |]. rewrite not_elem_of_cons. by split.
      * right. split; [lia | by apply list_elem_of_further].
Qed.

Lemma arr_indexOf_absent x arr : JS.arr_indexOf x arr = -1 <-> x ∉ arr.
Proof.
  unfold JS.arr_indexOf.
  destruct (arr_indexOf_from_cases x arr 0) as [[Hm Hn]|[Hle Hin]]; [lia | |].
  - by rewrite Hm.
  - split; [lia | done].
Qed.

Lemma arr_indexOf_eqb x arr :
  (JS.arr_indexOf x arr =? -1) = bool_decide (x ∉ arr).
Proof.
  destruct (Z.eqb_spec (JS.arr_indexOf x arr) (-1)) as [H|H].
  - by rewrite bool_decide_eq_true_2 by by apply arr_indexOf_absent.
  - rewrite bool_decide_eq_false_2; [done |]. by rewrite <- arr_indexOf_absent.
Qed.

Lemma arr_indexOf_present x arr :
  (JS.arr_indexOf x arr =? -1) = false -> x ∈ arr.
Proof.
  rewrite arr_indexOf_eqb, bool_decide_eq_false. apply dec_stable.
Qed.

Lemma isSupportedTextFile_spec e :
  isSupportedTextFile e = true <-> e ∈ SUPPORTED_TEXT_EXTENSIONS.
Proof.
  unfold isSupportedTextFile. rewrite arr_indexOf_eqb, negb_true_iff.
  rewrite bool_decide_eq_false. split; [apply dec_stable | by intros ? ?].
Qed.

Lemma isTextMimeType_spec ty :
  isTextMimeType ty = true <->
  JS.startsWith "text/" ty = true \/ ty ∈ SAFE_TEXT_MIME_TYPES.
Proof.
  unfold isTextMimeType.
  destruct (Z.eqb_spec (JS.str_indexOf "text/" ty) 0) as [H|H].
  - apply str_indexOf_at_start in H. split; [by left | done].
  - rewrite arr_indexOf_eqb, negb_true_iff, bool_decide_eq_false.
    rewrite <- str_indexOf_at_start. split.
    + intros Hin. right. by apply dec_stable.
    + intros [?|Hin]; [done | by intros ?].
Qed.

Lemma supported_image_prefix ty :
  ty ∈ SUPPORTED_TYPES -> JS.startsWith "image/" ty = true.
Proof.
  unfold SUPPORTED_TYPES. rewrite !elem_of_cons, elem_of_nil.
  intros [->|[->|[->|[->|[]]]]]; reflexivity.
Qed.

(** ** [splice] with a delete count of one *)

Lemma splice_in_range {A} (l : list A) i :
  0 <= i < Z.of_nat (length l) -> JS.splice i 1 l = delete (Z.to_nat i) l.
Proof.
  intros Hi. unfold JS.splice.
  destruct (Z.ltb_spec i 0) as [?|_]; [lia |].
  rewrite Z.min_l by lia. change (Z.max 1 0) with 1. rewrite Z.min_l by lia.
  rewrite delete_take_drop. by replace (Z.to_nat (i + 1)) with (S (Z.to_nat i)) by lia.
Qed.

Lemma splice_beyond {A} (l : list A) i :
  Z.of_nat (length l) <= i -> JS.splice i 1 l = l.
Proof.
  intros Hi. unfold JS.splice.
  destruct (Z.ltb_spec i 0) as [?|_]; [lia |].
  rewrite Z.min_r by lia. change (Z.max 1 0) with 1. rewrite Z.min_r by lia.
  replace (Z.of_nat (length l) + _) with (Z.of_nat (length l)) by lia.
  rewrite Nat2Z.id. apply take_drop.
Qed.

Lemma splice_negative {A} (l : list A) i :
  i < 0 ->
  JS.splice i 1 l = delete (Z.to_nat (Z.max (Z.of_nat (length l) + i) 0)) l.
Proof.
  intros Hi. unfold JS.splice.
  destruct (Z.ltb_spec i 0) as [_|?]; [|lia].
  change (Z.max 1 0) with 1.
  destruct l as [|x l]; [by rewrite take_nil, drop_nil |].
  set (len := Z.of_nat (length (x :: l))).
  assert (0 < len) by (subst len; simpl; lia).
  set (k := Z.max (len + i) 0). assert (0 <= k < len) by lia.
  rewrite Z.min_l by lia. rewrite delete_take_drop.
  by replace (Z.to_nat (k + 1)) with (S (Z.to_nat k)) by lia.
Qed.

(** Whatever the position, [splice(index, 1)] leaves the array as it was
    or deletes one element of it. *)
Lemma splice_one_cases {A} (l : list A) i :
  JS.splice i 1 l = l \/ exists k, JS.splice i 1 l = delete k l.
Proof.
  destruct (Z.ltb_spec i 0).
  - right. eexists. by apply splice_negative.
  - destruct (Z.ltb_spec i (Z.of_nat (length l))).
    + right. eexists. by apply splice_in_range.
    + left. by apply splice_beyond.
Qed.

(** ** Counting images and summing file sizes *)

Lemma currentImageCount_push atts a :
  currentImageCount (atts ++ [a]) =
    (currentImageCount atts + if decide (att_type a = TImage) then 1 else 0)%nat.
Proof.
  unfold currentImageCount. rewrite filter_app, length_app.
  rewrite filter_cons, filter_nil. by case_decide.
Qed.

Lemma currentImageCount_delete k atts :
  (currentImageCount (delete k atts) <= currentImageCount atts)%nat.
Proof.
  unfold currentImageCount. revert k.
  induction atts as [|a atts IH]; intros [|k]; simpl; try done.
  - rewrite filter_cons. case_decide; simpl; lia.
  - rewrite !filter_cons. specialize (IH k). case_decide; simpl; lia.
Qed.

Lemma currentImageCount_splice i atts :
  (currentImageCount (JS.splice i 1 atts) <= currentImageCount atts)%nat.
Proof.
  destruct (splice_one_cases atts i) as [->|[k ->]]; [done |].
  apply currentImageCount_delete.
Qed.

Lemma foldl_sizes_shift atts acc :
  foldl (fun sum a => (sum + sizeOrZero a)%N) acc atts
  = (acc + foldl (fun sum a => (sum + sizeOrZero a)%N) 0%N atts)%N.
Proof.
  revert acc; induction atts as [|a atts IH]; intros acc; simpl.
  - lia.
  - rewrite IH, (IH (0 + _)%N). lia.
Qed.

Lemma currentTotalSize_nil : currentTotalSize [] = 0%N.
Proof. reflexivity. Qed.

Lemma currentTotalSize_cons a atts :
  currentTotalSize (a :: atts) =
    if decide (att_type a = TFile)
    then (sizeOrZero a + currentTotalSize atts)%N
    else currentTotalSize atts.
Proof.
  unfold currentTotalSize. rewrite filter_cons. case_decide; [|done].
  simpl. by rewrite foldl_sizes_shift.
Qed.

Lemma currentTotalSize_push atts a :
  currentTotalSize (atts ++ [a]) =
    if decide (att_type a = TFile)
    then (currentTotalSize atts + sizeOrZero a)%N
    else currentTotalSize atts.
Proof.
  induction atts as [|b atts IH]; simpl.
  - rewrite currentTotalSize_cons, currentTotalSize_nil. case_decide; lia.
  - rewrite !currentTotalSize_cons, IH. repeat case_decide; lia.
Qed.

Lemma push_changes_array {A} (l : list A) a : l ++ [a] <> l.
Proof.
  intros H. apply (f_equal length) in H. rewrite length_app in H. simpl in H. lia.
Qed.

(** ** The paths through [addAttachment] *)

(** Unfolding a method down to the state it returns. *)
Ltac unfold_method :=
  cbv beta iota zeta delta
      [addAttachment compressAndPush addYoutubeLink addWikipediaLink
       removeAttachment clearAttachments showYoutubeModal showWikipediaModal
       updateAttachmentPreview push alert console emit this assign bind ret
       exec trace].

Ltac reduce_method :=
  cbv beta iota zeta delta
      [negb andb orb fst snd
       addAttachment compressAndPush addYoutubeLink addWikipediaLink
       removeAttachment clearAttachments showYoutubeModal showWikipediaModal
       updateAttachmentPreview push alert console emit this assign bind ret
       exec trace].

(** [addAttachment] with its two collaborators spelled out. *)
Abbreviation addAttachmentWith := addAttachment.

Section Properties.

Variable fileTypeFromBlob : File -> option FileTypeResult.
Variable compressAttachment : File -> CompressionOptions -> Completion Blob.

Abbreviation addAttachment := (addAttachment fileTypeFromBlob compressAttachment).
Abbreviation run := (run fileTypeFromBlob compressAttachment).
Abbreviation reachable := (reachable fileTypeFromBlob compressAttachment).

Lemma mime_gate_open ty :
  ty = EmptyString \/ isTextMimeType ty = true ->
  JS.truthy ty && negb (isTextMimeType ty) = false.
Proof. intros [-> | ->]; [done | by rewrite andb_false_r]. Qed.

Lemma mime_gate_cases ty :
  (ty = EmptyString \/ isTextMimeType ty = true)
  \/ (JS.truthy ty = true /\ isTextMimeType ty = false).
Proof.
  destruct ty as [|a ty]; [by left; left |].
  destruct (isTextMimeType (String a ty)); [by left; right | by right].
Qed.

(** The file path, gate by gate. *)

Lemma file_unsupported_extension st file :
  isSupportedTextFile (getFileExtension (file_name file)) = false ->
  addAttachment KFile file st
  = (tt, st, [Alert (UnsupportedFileType (getFileExtension (file_name file)))]).
Proof. intros H. unfold_method. by rewrite H. Qed.

Lemma file_sniffed st file d :
  isSupportedTextFile (getFileExtension (file_name file)) = true ->
  fileTypeFromBlob file = Some d ->
  addAttachment KFile file st
  = (tt, st, [Alert (NotTextDetected (ft_ext d) (ft_mime d))]).
Proof. intros H1 H2. unfold_method. by rewrite H1, H2. Qed.

Lemma file_binary_mime st file :
  isSupportedTextFile (getFileExtension (file_name file)) = true ->
  fileTypeFromBlob file = None ->
  JS.truthy (file_type file) = true ->
  isTextMimeType (file_type file) = false ->
  addAttachment KFile file st = (tt, st, [Alert (BinaryMimeType (file_type file))]).
Proof. intros H1 H2 H3 H4. unfold_method. by rewrite H1, H2, H3, H4. Qed.

Lemma file_too_large st file :
  isSupportedTextFile (getFileExtension (file_name file)) = true ->
  fileTypeFromBlob file = None ->
  file_type file = EmptyString \/ isTextMimeType (file_type file) = true ->
  (MAX_FILE_SIZE_BYTES < file_size file)%N ->
  addAttachment KFile file st = (tt, st, [Alert (FileTooLarge (file_size file))]).
Proof.
  intros H1 H2 H3%mime_gate_open H4%N.ltb_lt. unfold_method.
  by rewrite H1, H2, H3, H4.
Qed.

Lemma file_total_exceeded st file :
  isSupportedTextFile (getFileExtension (file_name file)) = true ->
  fileTypeFromBlob file = None ->
  file_type file = EmptyString \/ isTextMimeType (file_type file) = true ->
  (file_size file <= MAX_FILE_SIZE_BYTES)%N ->
  (MAX_TOTAL_FILE_SIZE_BYTES < currentTotalSize (attachments st) + file_size file)%N ->
  addAttachment KFile file st = (tt, st, [Alert TotalFileSizeExceeded]).
Proof.
  intros H1 H2 H3%mime_gate_open H4%N.ltb_ge H5%N.ltb_lt. unfold_method.
  rewrite H1, H2, H3, H4. reduce_method. by rewrite H5.
Qed.

Lemma file_committed st file :
  isSupportedTextFile (getFileExtension (file_name file)) = true ->
  fileTypeFromBlob file = None ->
  file_type file = EmptyString \/ isTextMimeType (file_type file) = true ->
  (file_size file <= MAX_FILE_SIZE_BYTES)%N ->
  (currentTotalSize (attachments st) + file_size file <= MAX_TOTAL_FILE_SIZE_BYTES)%N ->
  addAttachment KFile file st
  = (tt,
     set_attachments (attachments st ++ [fileRecord TFile file (file_name file)]) st,
     [Preview (attachments st ++ [fileRecord TFile file (file_name file)])]).
Proof.
  intros H1 H2 H3%mime_gate_open H4%N.ltb_ge H5%N.ltb_ge. unfold_method.
  rewrite H1, H2, H3, H4. reduce_method. by rewrite H5.
Qed.

(** The image path, gate by gate. *)

Lemma image_unsupported_format st file :
  file_type file ∉ SUPPORTED_TYPES ->
  addAttachment KImage file st
  = (tt, st, [Alert (UnsupportedImageFormat (file_type file))]).
Proof.
  intros H%arr_indexOf_absent. unfold_method. by rewrite H.
Qed.

Lemma image_too_large st file :
  file_type file ∈ SUPPORTED_TYPES ->
  (MAX_SIZE_BYTES < file_size file)%N ->
  addAttachment KImage file st = (tt, st, [Alert (ImageTooLarge (file_size file))]).
Proof.
  intros H1 H2%N.ltb_lt. unfold_method.
  rewrite arr_indexOf_eqb, bool_decide_eq_false_2 by (by intros ?).
  by rewrite H2.
Qed.

Lemma image_limit_reached st file :
  file_type file ∈ SUPPORTED_TYPES ->
  (file_size file <= MAX_SIZE_BYTES)%N ->
  (MAX_IMAGES <= currentImageCount (attachments st))%nat ->
  addAttachment KImage file st = (tt, st, [Alert TooManyImages]).
Proof.
  intros H1 H2%N.ltb_ge H3%Nat.leb_le. unfold_method.
  rewrite arr_indexOf_eqb, bool_decide_eq_false_2 by (by intros ?).
  rewrite H2. reduce_method. by rewrite H3.
Qed.

Lemma image_committed st file :
  file_type file ∈ SUPPORTED_TYPES ->
  (file_size file <= MAX_SIZE_BYTES)%N ->
  (currentImageCount (attachments st) < MAX_IMAGES)%nat ->
  exists stored,
    exec (addAttachment KImage file) st
    = set_attachments
        (attachments st ++ [fileRecord TImage stored (file_name file)]) st
    /\ alerts (trace (addAttachment KImage file) st) = []
    /\ if compressImages st
       then match compressAttachment file (compressionOptions st) with
            | Returned compressedBlob =>
                if (blob_size compressedBlob <? file_size file)%N
                then stored = newFile compressedBlob (file_name file)
                                      (blob_type compressedBlob)
                else stored = file
            | Thrown _ => stored = file
            end
       else stored = file.
Proof.
  intros H1 H2%N.ltb_ge H3%Nat.leb_gt. unfold_method.
  rewrite arr_indexOf_eqb, bool_decide_eq_false_2 by (by intros ?).
  rewrite H2. reduce_method. rewrite H3. reduce_method.
  rewrite (supported_image_prefix _ H1).
  destruct (compressImages st); [|by exists file].
  destruct (compressAttachment file (compressionOptions st)) as [b|e];
    [|by exists file].
  destruct (blob_size b <? file_size file)%N; eexists; split_and!; done.
Qed.

(** Every run of the file path ends in exactly one of six ways. *)
Lemma addAttachment_file_cases st file :
  let ext := getFileExtension (file_name file) in
  let ok := file_type file = EmptyString \/ isTextMimeType (file_type file) = true in
  let r := addAttachment KFile file st in
  (isSupportedTextFile ext = false
     /\ r = (tt, st, [Alert (UnsupportedFileType ext)]))
  \/ (isSupportedTextFile ext = true
     /\ exists d, fileTypeFromBlob file = Some d
        /\ r = (tt, st, [Alert (NotTextDetected (ft_ext d) (ft_mime d))]))
  \/ (isSupportedTextFile ext = true /\ fileTypeFromBlob file = None
     /\ ~ ok /\ r = (tt, st, [Alert (BinaryMimeType (file_type file))]))
  \/ (isSupportedTextFile ext = true /\ fileTypeFromBlob file = None /\ ok
     /\ (MAX_FILE_SIZE_BYTES < file_size file)%N
     /\ r = (tt, st, [Alert (FileTooLarge (file_size file))]))
  \/ (isSupportedTextFile ext = true /\ fileTypeFromBlob file = None /\ ok
     /\ (file_size file <= MAX_FILE_SIZE_BYTES)%N
     /\ (MAX_TOTAL_FILE_SIZE_BYTES
           < currentTotalSize (attachments st) + file_size file)%N
     /\ r = (tt, st, [Alert TotalFileSizeExceeded]))
  \/ (isSupportedTextFile ext = true /\ fileTypeFromBlob file = None /\ ok
     /\ (file_size file <= MAX_FILE_SIZE_BYTES)%N
     /\ (currentTotalSize (attachments st) + file_size file
           <= MAX_TOTAL_FILE_SIZE_BYTES)%N
     /\ r = (tt,
             set_attachments
               (attachments st ++ [fileRecord TFile file (file_name file)]) st,
             [Preview (attachments st ++ [fileRecord TFile file (file_name file)])])).
Proof.
  intros ext ok r. subst ext ok r.
  destruct (isSupportedTextFile _) eqn:H1;
    [|left; split; [done | by apply file_unsupported_extension]].
  right. destruct (fileTypeFromBlob file) as [d|] eqn:H2;
    [left; split; [done |]; exists d; split; [done | by apply file_sniffed] |].
  right. destruct (mime_gate_cases (file_type file)) as [H3|[H3 H4]]; cycle 1.
  { left. split_and!; try done.
    - intros [Hty|Hty]; [by rewrite Hty in H3 | congruence].
    - by apply file_binary_mime. }
  right. destruct (N.lt_ge_cases MAX_FILE_SIZE_BYTES (file_size file)) as [H4|H4];
    [left; split_and!; try done; by apply file_too_large |].
  right.
  destruct (N.lt_ge_cases MAX_TOTAL_FILE_SIZE_BYTES
              (currentTotalSize (attachments st) + file_size file)) as [H5|H5].
  - left. split_and!; try done. by apply file_total_exceeded.
  - right. split_and!; try done. by apply file_committed.
Qed.

(** The monad, run step by step. *)

Lemma exec_seq (m k : M unit) st : exec (m ;;; k)%js st = exec k (exec m st).
Proof.
  unfold exec, bind. destruct (m st) as [[[] st1] t1]. simpl.
  by destruct (k st1) as [[[] st2] t2].
Qed.

Lemma trace_seq (m k : M unit) st :
  trace (m ;;; k)%js st = trace m st ++ trace k (exec m st).
Proof.
  unfold trace, exec, bind. destruct (m st) as [[[] st1] t1]. simpl.
  by destruct (k st1) as [[[] st2] t2].
Qed.

Lemma exec_forEach_cons {A} (body : A -> M unit) x xs st :
  exec (forEach body (x :: xs)) st = exec (forEach body xs) (exec (body x) st).
Proof. apply exec_seq. Qed.

Lemma trace_forEach_cons {A} (body : A -> M unit) x xs st :
  trace (forEach body (x :: xs)) st
  = trace (body x) st ++ trace (forEach body xs) (exec (body x) st).
Proof. apply trace_seq. Qed.

Lemma alerts_app t1 t2 : alerts (t1 ++ t2) = alerts t1 ++ alerts t2.
Proof.
  induction t1 as [|[m|m|s] t1 IH]; simpl; [done | by rewrite IH | done | done].
Qed.

(** Every run of the image path ends in exactly one of four ways. *)
Lemma addAttachment_image_cases st file :
  ((file_type file ∉ SUPPORTED_TYPES)
     /\ addAttachment KImage file st
        = (tt, st, [Alert (UnsupportedImageFormat (file_type file))]))
  \/ (file_type file ∈ SUPPORTED_TYPES
     /\ (MAX_SIZE_BYTES < file_size file)%N
     /\ addAttachment KImage file st
        = (tt, st, [Alert (ImageTooLarge (file_size file))]))
  \/ (file_type file ∈ SUPPORTED_TYPES
     /\ (file_size file <= MAX_SIZE_BYTES)%N
     /\ (MAX_IMAGES <= currentImageCount (attachments st))%nat
     /\ addAttachment KImage file st = (tt, st, [Alert TooManyImages]))
  \/ (file_type file ∈ SUPPORTED_TYPES
     /\ (file_size file <= MAX_SIZE_BYTES)%N
     /\ (currentImageCount (attachments st) < MAX_IMAGES)%nat
     /\ exists stored,
          exec (addAttachment KImage file) st
          = set_attachments
              (attachments st ++ [fileRecord TImage stored (file_name file)]) st
          /\ alerts (trace (addAttachment KImage file) st) = []).
Proof.
  destruct (decide (file_type file ∈ SUPPORTED_TYPES)) as [H1|H1];
    [|left; split; [done | by apply image_unsupported_format]].
  right. destruct (N.lt_ge_cases MAX_SIZE_BYTES (file_size file)) as [H2|H2];
    [left; split_and!; try done; by apply image_too_large |].
  right.
  destruct (Nat.lt_ge_cases (currentImageCount (attachments st)) MAX_IMAGES)
    as [H3|H3].
  - right. split_and!; try done.
    destruct (image_committed st file H1 H2 H3) as (stored & ? & ? & _).
    by exists stored.
  - left. split_and!; try done. by apply image_limit_reached.
Qed.

(** ** Each operation moves the array by [arrayStep]s *)

Lemma addAttachment_steps type file st :
  rtc arrayStep (attachments st) (attachments (exec (addAttachment type file) st)).
Proof.
  destruct type.
  - destruct (addAttachment_image_cases st file)
      as [[_ H]|[(_ & _ & H)|[(_ & _ & _ & H)|(_ & _ & Hlt & stored & H & _)]]];
      try (unfold exec; rewrite H; simpl; done).
    rewrite H. simpl. apply rtc_once. by constructor.
  - unfold exec.
    destruct (addAttachment_file_cases st file)
      as [[_ H]|[(_ & d & _ & H)|[(_ & _ & _ & H)|[(_ & _ & _ & _ & H)
          |[(_ & _ & _ & _ & _ & H)|(_ & _ & _ & _ & _ & H)]]]]];
      rewrite H; simpl; try done.
    apply rtc_once. constructor.
Qed.

Lemma forEach_steps {A} (body : A -> M unit) xs st :
  (forall x st', rtc arrayStep (attachments st') (attachments (exec (body x) st'))) ->
  rtc arrayStep (attachments st) (attachments (exec (forEach body xs) st)).
Proof.
  intros Hbody. revert st; induction xs as [|x xs IH]; intros st; simpl.
  - done.
  - rewrite exec_seq. etrans; [apply Hbody | apply IH].
Qed.

Lemma run_steps op st :
  rtc arrayStep (attachments st) (attachments (exec (run op) st)).
Proof.
  destruct op as [settings|checked|value|value|files|files|type file|url|url
                  |answer|answer|index|]; simpl; try done.
  - apply forEach_steps. intros file st'.
    destruct (JS.startsWith _ _); [apply addAttachment_steps | done].
  - apply forEach_steps. intros file st'. apply addAttachment_steps.
  - apply addAttachment_steps.
  - apply rtc_once, step_youtube.
  - apply rtc_once, step_wikipedia.
  - destruct answer as [url|]; [|done]. unfold showYoutubeModal.
    destruct (JS.truthy url && _); [apply rtc_once, step_youtube |].
    by destruct (JS.truthy url).
  - destruct answer as [url|]; [|done]. unfold showWikipediaModal.
    destruct (JS.truthy url && _); [apply rtc_once, step_wikipedia |].
    by destruct (JS.truthy url).
  - apply rtc_once, step_splice.
  - apply rtc_once, step_clear.
Qed.

(** An invariant of the array that every [arrayStep] keeps holds of every
    reachable manager. *)
Lemma reachable_invariant (P : list Attachment -> Prop) :
  P [] ->
  (forall atts atts', arrayStep atts atts' -> P atts -> P atts') ->
  forall st, reachable st -> P (attachments st).
Proof.
  intros Hnil Hstep st Hst. induction Hst as [|st op _ IH]; [done |].
  pose proof (run_steps op st) as Hrun.
  induction Hrun as [|x y z Hxy _ IHrun]; [done |].
  apply IHrun. by eapply Hstep.
Qed.

Lemma arrayStep_image_limit atts atts' :
  arrayStep atts atts' ->
  (currentImageCount atts <= MAX_IMAGES)%nat ->
  (currentImageCount atts' <= MAX_IMAGES)%nat.
Proof.
  intros Hstep Hle. destruct Hstep as [atts f name Hlt|atts f name|atts url
                                      |atts url|atts index|atts];
    rewrite ?currentImageCount_push; simpl; try lia.
  - pose proof (currentImageCount_splice index atts). lia.
  - unfold currentImageCount. rewrite filter_nil. simpl. lia.
Qed.

(** ** What is held after a file is accepted *)

Ltac rejected_run H Hrun :=
  unfold exec in H; rewrite Hrun in H; simpl in H;
  by apply eq_sym, push_changes_array in H.

(** A committed file candidate went through every gate of the file path. *)
Lemma file_commit_inversion st file a :
  attachments (exec (addAttachment KFile file) st) = attachments st ++ [a] ->
  a = fileRecord TFile file (file_name file)
  /\ isSupportedTextFile (getFileExtension (file_name file)) = true
  /\ fileTypeFromBlob file = None
  /\ (file_type file = EmptyString \/ isTextMimeType (file_type file) = true)
  /\ (file_size file <= MAX_FILE_SIZE_BYTES)%N
  /\ (currentTotalSize (attachments st) + file_size file
        <= MAX_TOTAL_FILE_SIZE_BYTES)%N.
Proof.
  intros H.
  destruct (addAttachment_file_cases st file)
    as [[_ Hr]|[(_ & d & _ & Hr)|[(_ & _ & _ & Hr)|[(_ & _ & _ & _ & Hr)
        |[(_ & _ & _ & _ & _ & Hr)|(Hext & Hsniff & Hmime & Hsz & Htot & Hr)]]]]];
    try rejected_run H Hr.
  unfold exec in H. rewrite Hr in H. simpl in H. apply app_inv_head in H.
  split_and!; try done. congruence.
Qed.

(** C1 (amended).  A file candidate is committed by the file path only
    when the lowercase extension of its name is in the allow-list, the
    content sniffer recognised no format, its declared MIME type is empty
    or a text type, and both size limits hold; the record committed holds
    the submitted file itself.  Nothing in these checks decodes the
    payload. *)
Theorem text_file_commit_conditions st file a :
  attachments (exec (addAttachment KFile file) st) = attachments st ++ [a] ->
  att_file a = Some file
  /\ att_type a = TFile
  /\ getFileExtension (file_name file) ∈ SUPPORTED_TEXT_EXTENSIONS
  /\ fileTypeFromBlob file = None
  /\ (file_type file = EmptyString
      \/ JS.startsWith "text/" (file_type file) = true
      \/ file_type file ∈ SAFE_TEXT_MIME_TYPES)
  /\ (file_size file <= 10 * MiB)%N
  /\ (currentTotalSize (attachments st) + file_size file <= 10 * MiB)%N.
Proof.
  intros (-> & Hext & Hsniff & Hmime & Hsz & Htot)%file_commit_inversion.
  split_and!; try done.
  - by apply isSupportedTextFile_spec.
  - destruct Hmime as [?|Hmime%isTextMimeType_spec]; [by left | by right].
Qed.

(** C2 (amended).  A file candidate in which the sniffer recognises a
    format is never committed, whatever its extension: the manager is left
    as it was and one alert is shown.  With an extension in the allow-list
    the alert is the binary-content one naming the detected format; with
    any other extension the candidate was already turned away as an
    unsupported file type, before the sniffer ran. *)
Theorem sniffed_candidate_rejected st file d :
  fileTypeFromBlob file = Some d ->
  let ext := getFileExtension (file_name file) in
  exec (addAttachment KFile file) st = st
  /\ (ext ∈ SUPPORTED_TEXT_EXTENSIONS ->
      trace (addAttachment KFile file) st
      = [Alert (NotTextDetected (ft_ext d) (ft_mime d))]
      /\ reason (NotTextDetected (ft_ext d) (ft_mime d)) = BinaryContentDetected)
  /\ (ext ∉ SUPPORTED_TEXT_EXTENSIONS ->
      trace (addAttachment KFile file) st = [Alert (UnsupportedFileType ext)]
      /\ reason (UnsupportedFileType ext) = UnsupportedFormat).
Proof.
  intros Hd ext. subst ext. unfold exec, trace.
  destruct (isSupportedTextFile (getFileExtension (file_name file))) eqn:Hext.
  - rewrite (file_sniffed st file d Hext Hd). simpl. split_and!; [done | done |].
    intros Hno. by apply isSupportedTextFile_spec in Hext.
  - rewrite (file_unsupported_extension st file Hext). simpl.
    split_and!; [done | | done].
    intros Hin%isSupportedTextFile_spec. congruence.
Qed.

(** The image path is its first piece followed by its resumption. *)
Lemma addAttachment_image_split st file :
  addAttachment KImage file st
  = (let* s := addImageUntilAwait file in resumeImage compressAttachment s)%js st.
Proof.
  unfold addImageUntilAwait, resumeImage. unfold_method.
  destruct (JS.arr_indexOf _ _ =? -1); [done |].
  destruct (MAX_SIZE_BYTES <? file_size file)%N; [done |].
  reduce_method.
  destruct (MAX_IMAGES <=? currentImageCount (attachments st))%nat; [done |].
  reduce_method.
  destruct (compressImages st); [|reflexivity].
  destruct (JS.startsWith "image/" (file_type file)); [|reflexivity].
  simpl.
  destruct (compressAttachment file (compressionOptions st)) as [b|e];
    [|reflexivity].
  destruct (blob_size b <? file_size file)%N; reflexivity.
Qed.

(** With [MAX_IMAGES] images held, the call ends in its first piece. *)
Lemma image_settled_before_await st file :
  (MAX_IMAGES <= currentImageCount (attachments st))%nat ->
  addImageUntilAwait file st = (Settled, st, trace (addAttachment KImage file) st).
Proof.
  intros Hfull%Nat.leb_le. unfold addImageUntilAwait. unfold_method.
  destruct (JS.arr_indexOf _ _ =? -1); [done |].
  destruct (MAX_SIZE_BYTES <? file_size file)%N; [done |].
  reduce_method. by rewrite Hfull.
Qed.

(** C3 (amended).  While the calls of the manager do not overlap, each
    one finishing before the next is made, no operation takes the number
    of image attachments above 8, so no manager reached that way holds
    more than 8 images.  With 8 images held when the call is made, a
    further image candidate is always turned away, in the first piece of
    the call and before anything is awaited, and the manager is left as it
    was; the alert is the count-limit one when the declared type is in the
    image allow-list and the size is within 10 MiB, and the format or size
    alert of the earlier gate otherwise. *)
Theorem image_count_limit :
  (forall op st,
      (currentImageCount (attachments st) <= 8)%nat ->
      (currentImageCount (attachments (exec (run op) st)) <= 8)%nat)
  /\ (forall st, reachable st -> (currentImageCount (attachments st) <= 8)%nat)
  /\ (forall st file,
        (8 <= currentImageCount (attachments st))%nat ->
        addImageUntilAwait file st
        = (Settled, st, trace (addAttachment KImage file) st)
        /\ exec (addAttachment KImage file) st = st
        /\ (file_type file ∉ SUPPORTED_TYPES ->
            trace (addAttachment KImage file) st
            = [Alert (UnsupportedImageFormat (file_type file))])
        /\ (file_type file ∈ SUPPORTED_TYPES ->
            (10 * MiB < file_size file)%N ->
            trace (addAttachment KImage file) st
            = [Alert (ImageTooLarge (file_size file))])
        /\ (file_type file ∈ SUPPORTED_TYPES ->
            (file_size file <= 10 * MiB)%N ->
            trace (addAttachment KImage file) st = [Alert TooManyImages]
            /\ reason TooManyImages = CountLimitReached)).
Proof.
  split_and!.
  - intros op st Hle. pose proof (run_steps op st) as Hrun.
    induction Hrun as [|x y z Hxy _ IH]; [done |].
    apply IH. by eapply arrayStep_image_limit.
  - intros st Hst.
    apply (reachable_invariant (fun atts => (currentImageCount atts <= 8)%nat));
      [cbv; lia | apply arrayStep_image_limit | done].
  - intros st file Hfull. split; [by apply image_settled_before_await |].
    unfold exec, trace.
    destruct (addAttachment_image_cases st file)
      as [[H1 Hr]|[(H1 & H2 & Hr)|[(H1 & H2 & _ & Hr)|(_ & _ & Hlt & _)]]];
      [| | |unfold MAX_IMAGES in Hlt; lia];
      rewrite Hr; simpl; split_and!; try done;
      unfold MAX_SIZE_BYTES, MiB in *; intros; lia.
Qed.

(** A resumed call pushes without looking at the count again. *)
Lemma resumeImage_pushes st file options :
  exists stored,
    exec (resumeImage compressAttachment (AwaitingCompressor file options)) st
    = set_attachments
        (attachments st ++ [fileRecord TImage stored (file_name file)]) st
    /\ alerts (trace (resumeImage compressAttachment
                      (AwaitingCompressor file options)) st) = [].
Proof.
  unfold resumeImage. unfold_method.
  destruct (compressAttachment file options) as [b|e]; [|by eexists].
  destruct (blob_size b <? file_size file)%N; by eexists.
Qed.

(** X23.  Calls that overlap are not held to the limit.  With compression
    on and 7 images held, two image candidates of an allowed type and at
    most 10 MiB each, submitted one right after the other, both pass the
    count check and are both suspended at the compressor with the manager
    unchanged; once both are resumed the manager holds 9 images. *)
Theorem overlapping_image_calls st f1 f2 :
  file_type f1 ∈ SUPPORTED_TYPES -> file_type f2 ∈ SUPPORTED_TYPES ->
  (file_size f1 <= MAX_SIZE_BYTES)%N -> (file_size f2 <= MAX_SIZE_BYTES)%N ->
  compressImages st = true ->
  currentImageCount (attachments st) = 7%nat ->
  let s1 := AwaitingCompressor f1 (compressionOptions st) in
  let s2 := AwaitingCompressor f2 (compressionOptions st) in
  addImageUntilAwait f1 st
  = (s1, st, [Console (Compressing (file_name f1) (file_size f1))])
  /\ addImageUntilAwait f2 st
     = (s2, st, [Console (Compressing (file_name f2) (file_size f2))])
  /\ currentImageCount
       (attachments
          (exec (resumeImage compressAttachment s2)
                (exec (resumeImage compressAttachment s1) st))) = 9%nat.
Proof.
  intros Hty1 Hty2 Hsz1%N.ltb_ge Hsz2%N.ltb_ge Hon Hcount s1 s2.
  assert (forall f,
            file_type f ∈ SUPPORTED_TYPES -> (MAX_SIZE_BYTES <? file_size f)%N = false ->
            addImageUntilAwait f st
            = (AwaitingCompressor f (compressionOptions st), st,
               [Console (Compressing (file_name f) (file_size f))])) as Hfirst.
  { intros f Hty Hsz. unfold addImageUntilAwait. unfold_method.
    rewrite arr_indexOf_eqb, bool_decide_eq_false_2 by (by intros ?).
    rewrite Hsz. reduce_method. rewrite Hcount.
    cbv beta iota zeta delta [MAX_IMAGES Nat.leb isImageKind].
    by rewrite Hon, (supported_image_prefix _ Hty). }
  split_and!; [by apply Hfirst | by apply Hfirst |].
  destruct (resumeImage_pushes st f1 (compressionOptions st)) as (x1 & E1 & _).
  fold s1 in E1. rewrite E1.
  destruct (resumeImage_pushes
              (set_attachments
                 (attachments st ++ [fileRecord TImage x1 (file_name f1)]) st)
              f2 (compressionOptions st)) as (x2 & E2 & _).
  fold s2 in E2. rewrite E2. simpl.
  rewrite !currentImageCount_push, Hcount. simpl. lia.
Qed.

(** ** Size limits *)



End Properties.

Section SizeBeforeCompression.

Variable fileTypeFromBlob : File -> option FileTypeResult.
Variable compressAttachment : File -> CompressionOptions -> Completion Blob.

Abbreviation addAttachment := (addAttachment fileTypeFromBlob compressAttachment).



End SizeBeforeCompression.

(** ** Compression *)

Section Compression.

Variable fileTypeFromBlob : File -> option FileTypeResult.
Variable compressAttachment : File -> CompressionOptions -> Completion Blob.

Abbreviation addAttachment := (addAttachment fileTypeFromBlob compressAttachment).

(** C6.  An image candidate that passes the format, size and count checks
    while compression is switched on is always committed, with no alert:
    one image record, the literal [{type, file, name}] of line 254, is
    appended whose file carries the compressor's
    output (size, type and bytes) under the original name when that output
    is strictly smaller than the original, and is the original file itself
    when the output is not strictly smaller or the compressor throws. *)
Theorem compression_smaller_or_original st file :
  file_type file ∈ SUPPORTED_TYPES ->
  (file_size file <= 10 * MiB)%N ->
  (currentImageCount (attachments st) < 8)%nat ->
  compressImages st = true ->
  exists a stored,
    attachments (exec (addAttachment KImage file) st) = attachments st ++ [a]
    /\ att_type a = TImage
    /\ att_file a = Some stored
    /\ att_name a = Some (file_name file)
    /\ a = fileRecord TImage stored (file_name file)
    /\ alerts (trace (addAttachment KImage file) st) = []
    /\ (file_size stored <= file_size file)%N
    /\ match compressAttachment file (compressionOptions st) with
       | Returned compressedBlob =>
           if (blob_size compressedBlob <? file_size file)%N
           then file_bytes stored = blob_bytes compressedBlob
                /\ file_size stored = blob_size compressedBlob
                /\ file_type stored = blob_type compressedBlob
                /\ file_name stored = file_name file
           else stored = file
       | Thrown _ => stored = file
       end.
Proof.
  intros Hty Hsz Hcnt Hon.
  destruct (image_committed fileTypeFromBlob compressAttachment st file Hty)
    as (stored & Hexec & Halerts & Hstored);
    [done | done |].
  exists (fileRecord TImage stored (file_name file)), stored.
  rewrite Hexec, Hon in *. split_and!; try done.
  - destruct (compressAttachment file (compressionOptions st)) as [b|e];
      [|subst; lia].
    destruct (N.ltb_spec (blob_size b) (file_size file)); subst; [|lia].
    unfold file_size at 1. simpl. lia.
  - destruct (compressAttachment file (compressionOptions st)) as [b|e]; [|done].
    destruct (blob_size b <? file_size file)%N; [|done]. by subst.
Qed.

End Compression.

(** ** Removal by position *)

Lemma set_attachments_same st : set_attachments (attachments st) st = st.
Proof. by destruct st. Qed.

Lemma removeAttachment_array index st :
  attachments (exec (removeAttachment index) st)
  = JS.splice index 1 (attachments st).
Proof. reflexivity. Qed.

(** C7 (amended).  On an array of [n] attachments, [removeAttachment(i)]
    with [0 <= i < n] deletes the element at position [i] and keeps the
    others in their order, leaving [n - 1]; with [i >= n] it leaves the
    manager as it was.  A negative [i] is not ignored: it counts from the
    end, so the element at position [max (n + i) 0] is deleted. *)
Theorem removeAttachment_positions st index :
  let atts := attachments st in
  let n := Z.of_nat (length atts) in
  let atts' := attachments (exec (removeAttachment index) st) in
  (0 <= index < n ->
     atts' = delete (Z.to_nat index) atts
     /\ length atts' = (length atts - 1)%nat
     /\ (forall j, (j < Z.to_nat index)%nat -> atts' !! j = atts !! j)
     /\ (forall j, (Z.to_nat index <= j)%nat -> atts' !! j = atts !! S j))
  /\ (n <= index -> exec (removeAttachment index) st = st)
  /\ (index < 0 ->
        atts' = delete (Z.to_nat (Z.max (n + index) 0)) atts
        /\ (atts <> [] -> length atts' = (length atts - 1)%nat)).
Proof.
  intros atts n atts'. subst atts n atts'. rewrite removeAttachment_array.
  split_and!.
  - intros Hi. rewrite splice_in_range by done. split_and!.
    + done.
    + apply length_delete, lookup_lt_is_Some. lia.
    + intros j Hj. by apply list_lookup_delete_lt.
    + intros j Hj. by apply list_lookup_delete_ge.
  - intros Hi. unfold exec. simpl. rewrite splice_beyond by done.
    apply set_attachments_same.
  - intros Hi. rewrite splice_negative by done. split; [done |].
    intros Hne. apply length_delete, lookup_lt_is_Some.
    destruct (attachments st); [done |]. simpl length. lia.
Qed.

(** ** Links *)

Lemma occurs_nonempty a sub s : occurs (String a sub) s -> JS.truthy s = true.
Proof.
  intros (pre & post & ->). by destruct pre.
Qed.

(** C8 (amended).  For the text typed into the prompt: the youtube modal
    commits a link attachment exactly when the text contains "youtube.com"
    or "youtu.be", the wikipedia modal exactly when it contains
    "wikipedia.org".  Any other non-empty text is turned away with the
    invalid-link alert and nothing is appended.  An empty text, like a
    dismissed prompt, appends nothing and shows no alert at all. *)
Theorem link_modal_validation url st :
  (occurs "youtube.com" url \/ occurs "youtu.be" url ->
     showYoutubeModal (Some url) st = addYoutubeLink url st
     /\ attachments (exec (showYoutubeModal (Some url)) st)
        = attachments st ++ [linkRecord TYoutube url]
     /\ alerts (trace (showYoutubeModal (Some url)) st) = [])
  /\ (~ (occurs "youtube.com" url \/ occurs "youtu.be" url) ->
     exec (showYoutubeModal (Some url)) st = st
     /\ trace (showYoutubeModal (Some url)) st
        = if JS.truthy url then [Alert InvalidYoutubeUrl] else [])
  /\ (occurs "wikipedia.org" url ->
     showWikipediaModal (Some url) st = addWikipediaLink url st
     /\ attachments (exec (showWikipediaModal (Some url)) st)
        = attachments st ++ [linkRecord TWikipedia url]
     /\ alerts (trace (showWikipediaModal (Some url)) st) = [])
  /\ (~ occurs "wikipedia.org" url ->
     exec (showWikipediaModal (Some url)) st = st
     /\ trace (showWikipediaModal (Some url)) st
        = if JS.truthy url then [Alert InvalidWikipediaUrl] else [])
  /\ reason InvalidYoutubeUrl = InvalidLink
  /\ reason InvalidWikipediaUrl = InvalidLink
  /\ showYoutubeModal None st = (tt, st, [])
  /\ showWikipediaModal None st = (tt, st, []).
Proof.
  split_and!; try done.
  - intros Hocc.
    assert (JS.truthy url = true) as Htruthy
      by (destruct Hocc; by eapply occurs_nonempty).
    assert (JS.includes "youtube.com" url || JS.includes "youtu.be" url = true)
      as Hinc by (rewrite orb_true_iff, !includes_spec; done).
    unfold showYoutubeModal, exec, trace. by rewrite Htruthy, Hinc.
  - intros Hno.
    assert (JS.includes "youtube.com" url || JS.includes "youtu.be" url = false)
      as Hinc.
    { apply not_true_is_false. by rewrite orb_true_iff, !includes_spec. }
    unfold showYoutubeModal, exec, trace. rewrite Hinc, andb_false_r.
    by destruct (JS.truthy url).
  - intros Hocc.
    assert (JS.truthy url = true) as Htruthy by (by eapply occurs_nonempty).
    apply includes_spec in Hocc.
    unfold showWikipediaModal, exec, trace. by rewrite Htruthy, Hocc.
  - intros Hno%includes_false.
    unfold showWikipediaModal, exec, trace. rewrite Hno, andb_false_r.
    by destruct (JS.truthy url).
Qed.


(** ** The fields of a committed record *)

Lemma lower_ascii_idempotent c : JS.lower_ascii (JS.lower_ascii c) = JS.lower_ascii c.
Proof. destruct c as [[] [] [] [] [] [] [] []]; reflexivity. Qed.

Lemma toLowerCase_idempotent s : JS.toLowerCase (JS.toLowerCase s) = JS.toLowerCase s.
Proof.
  induction s as [|c s IH]; simpl; [done |].
  by rewrite lower_ascii_idempotent, IH.
Qed.

Lemma getFileExtension_lowercase filename :
  JS.toLowerCase (getFileExtension filename) = getFileExtension filename.
Proof.
  unfold getFileExtension. destruct (1 <? _)%nat; [|done].
  destruct (JS.pop _); [apply toLowerCase_idempotent | done].
Qed.

Lemma arrayStep_optional_fields atts atts' :
  arrayStep atts atts' ->
  Forall (fun a => textContent a = None /\ extension a = None /\ sizeBytes a = None) atts ->
  Forall (fun a => textContent a = None /\ extension a = None /\ sizeBytes a = None) atts'.
Proof.
  intros Hstep Hall.
  destruct Hstep as [atts f name Hlt|atts f name|atts url|atts url|atts index|atts];
    rewrite ?Forall_app, ?Forall_singleton; try done.
  unfold JS.splice. apply Forall_app. split; [by apply Forall_take | by apply Forall_drop].
Qed.

Section RecordFields.

Variable fileTypeFromBlob : File -> option FileTypeResult.
Variable compressAttachment : File -> CompressionOptions -> Completion Blob.

Abbreviation addAttachment := (addAttachment fileTypeFromBlob compressAttachment).
Abbreviation reachable := (reachable fileTypeFromBlob compressAttachment).

(** C9 (amended).  The record committed for a text file holds the type,
    the submitted [File] object and its name, and nothing else: the
    [sizeBytes], [extension] and [textContent] fields are left unset.  The
    original byte size is what [file.size] of the stored object gives, and
    the extension is what [getFileExtension] gives again from the name: a
    lowercase member of the allow-list.  No record of any kind, in any
    manager the host can reach, carries one of the three fields. *)
Theorem file_record_fields :
  (forall st file a,
      attachments (exec (addAttachment KFile file) st) = attachments st ++ [a] ->
      a = mkAttachment TFile (Some file) None (Some (file_name file)) None None None
      /\ sizeOrZero a = file_size file
      /\ getFileExtension (file_name file) ∈ SUPPORTED_TEXT_EXTENSIONS
      /\ JS.toLowerCase (getFileExtension (file_name file))
         = getFileExtension (file_name file))
  /\ (forall st, reachable st ->
        forall a, a ∈ attachments st ->
          textContent a = None /\ extension a = None /\ sizeBytes a = None).
Proof.
  split.
  - intros st file a Hcommit.
    destruct (file_commit_inversion _ _ _ _ _ Hcommit) as (-> & Hext & _).
    split_and!; [done | done | by apply isSupportedTextFile_spec
                | apply getFileExtension_lowercase].
  - intros st Hst. apply Forall_forall.
    by apply (reachable_invariant fileTypeFromBlob compressAttachment
                (Forall (fun a => textContent a = None /\ extension a = None
                                  /\ sizeBytes a = None)));
      [apply Forall_nil | apply arrayStep_optional_fields | ].
Qed.

End RecordFields.

(** * The manager on sample candidates *)

(** A Latin-1 text file passes every check of the file path although its
    bytes are not well-formed UTF-8. *)
Lemma latin1_text_file_committed :
  attachments
    (exec (addAttachment signatureSniffer failingCompressor KFile latin1Note)
          AttachmentManager)
  = [fileRecord TFile latin1Note "notes.txt"]
  /\ alerts (trace (addAttachment signatureSniffer failingCompressor KFile latin1Note)
                   AttachmentManager) = []
  /\ signatureSniffer latin1Note = None
  /\ file_bytes latin1Note = [x63; x61; x66; xe9]
  /\ Utf8.decodable (file_bytes latin1Note) = false.
Proof. repeat split; reflexivity. Qed.

(** The same holds under any sniffer that finds no format in those four
    bytes, and any compressor. *)
Lemma latin1_committed_unless_sniffed sniff compress :
  sniff latin1Note = None ->
  attachments (exec (addAttachment sniff compress KFile latin1Note) AttachmentManager)
  = [fileRecord TFile latin1Note "notes.txt"].
Proof.
  intros Hnone. unfold exec.
  rewrite (file_committed sniff compress AttachmentManager latin1Note);
    [reflexivity | reflexivity | exact Hnone | right; reflexivity
    | vm_compute; discriminate | vm_compute; discriminate].
Qed.

Lemma text_file_commit_conditions_witness :
  let file := textFile "a.txt" (3 * MiB) in
  attachments
    (exec (addAttachment signatureSniffer failingCompressor KFile file)
          AttachmentManager)
  = attachments AttachmentManager ++ [fileRecord TFile file "a.txt"]
  /\ getFileExtension (file_name file) ∈ SUPPORTED_TEXT_EXTENSIONS
  /\ signatureSniffer file = None.
Proof.
  intros file.
  assert (attachments
            (exec (addAttachment signatureSniffer failingCompressor KFile file)
                  AttachmentManager)
          = attachments AttachmentManager ++ [fileRecord TFile file "a.txt"]) as H
    by reflexivity.
  split; [exact H |].
  destruct (text_file_commit_conditions signatureSniffer failingCompressor
              AttachmentManager file _ H) as (_ & _ & Hext & Hsniff & _).
  split; [exact Hext | exact Hsniff].
Defined.

(** PNG content named [logo.png], sent down the file path: the sniffer
    would recognise it, but the alert is the unsupported-type one. *)
Lemma sniffed_png_rejected_for_extension :
  signatureSniffer pngNamedPng = Some (mkFileType "png" "image/png")
  /\ addAttachment signatureSniffer failingCompressor KFile pngNamedPng
       AttachmentManager
     = (tt, AttachmentManager, [Alert (UnsupportedFileType "png")])
  /\ reason (UnsupportedFileType "png") <> BinaryContentDetected.
Proof. split; [reflexivity | split; [reflexivity | discriminate]]. Qed.

Lemma sniffed_candidate_rejected_witness :
  signatureSniffer pngNamedTxt = Some (mkFileType "png" "image/png")
  /\ exec (addAttachment signatureSniffer failingCompressor KFile pngNamedTxt)
          AttachmentManager = AttachmentManager
  /\ trace (addAttachment signatureSniffer failingCompressor KFile pngNamedTxt)
           AttachmentManager
     = [Alert (NotTextDetected "png" "image/png")].
Proof.
  assert (signatureSniffer pngNamedTxt = Some (mkFileType "png" "image/png")) as H
    by reflexivity.
  split; [exact H |].
  destruct (sniffed_candidate_rejected signatureSniffer failingCompressor
              AttachmentManager pngNamedTxt _ H) as (Hexec & Hin & _).
  split; [exact Hexec |].
  apply Hin. apply isSupportedTextFile_spec. reflexivity.
Defined.

(** With eight images held, a bitmap is turned away for its format, not
    for the count. *)
Lemma ninth_image_rejected_for_format :
  currentImageCount (attachments (holding eightImages)) = 8%nat
  /\ addAttachment signatureSniffer failingCompressor KImage bmpImage
       (holding eightImages)
     = (tt, holding eightImages, [Alert (UnsupportedImageFormat "image/bmp")])
  /\ reason (UnsupportedImageFormat "image/bmp") <> CountLimitReached.
Proof. split; [reflexivity | split; [reflexivity | discriminate]]. Qed.

Lemma image_count_limit_witness :
  let file := pngImage "ninth.png" 2048 in
  (8 <= currentImageCount (attachments (holding eightImages)))%nat
  /\ exec (addAttachment signatureSniffer failingCompressor KImage file)
          (holding eightImages) = holding eightImages
  /\ trace (addAttachment signatureSniffer failingCompressor KImage file)
           (holding eightImages) = [Alert TooManyImages].
Proof.
  intros file.
  assert (8 <= currentImageCount (attachments (holding eightImages)))%nat as H
    by (vm_compute; lia).
  split; [exact H |].
  destruct (image_count_limit signatureSniffer failingCompressor) as (_ & _ & Hfull).
  destruct (Hfull (holding eightImages) file H) as (_ & Hexec & _ & _ & Hcount).
  split; [exact Hexec |].
  apply Hcount.
  - apply arr_indexOf_present. reflexivity.
  - vm_compute. discriminate.
Defined.





Lemma compression_smaller_or_original_witness :
  let file := pngImage "photo.png" 2048 in
  (exists a stored,
     attachments
       (exec (addAttachment signatureSniffer shrinkingCompressor KImage file)
             AttachmentManager)
     = [a]
     /\ att_file a = Some stored
     /\ file_size stored = 204%N
     /\ file_type stored = "image/jpeg")
  /\ (exists a,
        attachments
          (exec (addAttachment signatureSniffer idleCompressor KImage file)
                AttachmentManager)
        = [a]
        /\ att_file a = Some file)
  /\ (exists a,
        attachments
          (exec (addAttachment signatureSniffer failingCompressor KImage file)
                AttachmentManager)
        = [a]
        /\ att_file a = Some file).
Proof.
  intros file.
  assert (file_type file ∈ SUPPORTED_TYPES) as Hty
    by (apply arr_indexOf_present; reflexivity).
  assert (file_size file <= 10 * MiB)%N as Hsz by (vm_compute; discriminate).
  assert (currentImageCount (attachments AttachmentManager) < 8)%nat as Hcnt
    by (vm_compute; lia).
  assert (compressImages AttachmentManager = true) as Hon by reflexivity.
  split; [|split].
  - destruct (compression_smaller_or_original signatureSniffer shrinkingCompressor
                AttachmentManager file Hty Hsz Hcnt Hon)
      as (a & stored & Hexec & _ & Hfile & _ & _ & _ & _ & Hstored).
    exists a, stored. split; [exact Hexec |]. split; [exact Hfile |].
    destruct Hstored as (_ & Hsize & Htype & _). split; [exact Hsize | exact Htype].
  - destruct (compression_smaller_or_original signatureSniffer idleCompressor
                AttachmentManager file Hty Hsz Hcnt Hon)
      as (a & stored & Hexec & _ & Hfile & _ & _ & _ & _ & Hstored).
    simpl in Hstored. rewrite Hstored in Hfile.
    exists a. split; [exact Hexec | exact Hfile].
  - destruct (compression_smaller_or_original signatureSniffer failingCompressor
                AttachmentManager file Hty Hsz Hcnt Hon)
      as (a & stored & Hexec & _ & Hfile & _ & _ & _ & _ & Hstored).
    simpl in Hstored. rewrite Hstored in Hfile.
    exists a. split; [exact Hexec | exact Hfile].
Defined.

(** [removeAttachment(-1)] on two links removes the last one. *)
Lemma negative_index_removes_last :
  attachments (exec (removeAttachment (-1)) (holding twoLinks))
  = [linkRecord TYoutube "https://youtu.be/abc123"]
  /\ exec (removeAttachment (-1)) (holding twoLinks) <> holding twoLinks.
Proof. split; [reflexivity | discriminate]. Qed.

Lemma removeAttachment_positions_witness :
  let st := holding twoLinks in
  0 <= 0 < Z.of_nat (length (attachments st))
  /\ attachments (exec (removeAttachment 0) st)
     = [linkRecord TWikipedia "https://en.wikipedia.org/wiki/Kea"]
  /\ Z.of_nat (length (attachments st)) <= 2
  /\ exec (removeAttachment 2) st = st
  /\ -5 < 0
  /\ attachments (exec (removeAttachment (-5)) st)
     = [linkRecord TWikipedia "https://en.wikipedia.org/wiki/Kea"].
Proof.
  intros st.
  assert (0 <= 0 < Z.of_nat (length (attachments st))) as Hin
    by (vm_compute; split; [discriminate | reflexivity]).
  assert (Z.of_nat (length (attachments st)) <= 2) as Hout
    by (vm_compute; discriminate).
  assert (-5 < 0) as Hneg by reflexivity.
  destruct (removeAttachment_positions st 0) as (H0 & _ & _).
  destruct (removeAttachment_positions st 2) as (_ & H2 & _).
  destruct (removeAttachment_positions st (-5)) as (_ & _ & H5).
  destruct (H0 Hin) as (Hdel & _). destruct (H5 Hneg) as (Hdel5 & _).
  split; [exact Hin |]. split; [exact Hdel |]. split; [exact Hout |].
  split; [exact (H2 Hout) |]. split; [exact Hneg | exact Hdel5].
Defined.

(** An empty answer to the prompt appends nothing and shows nothing. *)
Lemma empty_url_not_reported :
  showYoutubeModal (Some EmptyString) AttachmentManager = (tt, AttachmentManager, [])
  /\ showWikipediaModal (Some EmptyString) AttachmentManager
     = (tt, AttachmentManager, [])
  /\ ~ (occurs "youtube.com" EmptyString \/ occurs "youtu.be" EmptyString)
  /\ ~ occurs "wikipedia.org" EmptyString.
Proof.
  split; [reflexivity | split; [reflexivity | split]].
  - intros [H|H]; by apply includes_spec in H.
  - intros H. by apply includes_spec in H.
Qed.

Lemma link_modal_validation_witness :
  let url := "https://youtu.be/abc123" in
  (occurs "youtube.com" url \/ occurs "youtu.be" url)
  /\ attachments (exec (showYoutubeModal (Some url)) AttachmentManager)
     = [linkRecord TYoutube url]
  /\ ~ (occurs "youtube.com" "https://vimeo.com/abc123"
        \/ occurs "youtu.be" "https://vimeo.com/abc123")
  /\ trace (showYoutubeModal (Some "https://vimeo.com/abc123")) AttachmentManager
     = [Alert InvalidYoutubeUrl].
Proof.
  intros url.
  assert (occurs "youtube.com" url \/ occurs "youtu.be" url) as H
    by (right; exists "https://", "/abc123"; reflexivity).
  assert (~ (occurs "youtube.com" "https://vimeo.com/abc123"
             \/ occurs "youtu.be" "https://vimeo.com/abc123")) as Hno.
  { intros [Ho|Ho]; apply includes_spec in Ho; discriminate Ho. }
  split; [exact H |].
  destruct (link_modal_validation url AttachmentManager) as (Hyes & _).
  destruct (Hyes H) as (_ & Hatts & _).
  split; [exact Hatts |]. split; [exact Hno |].
  destruct (link_modal_validation "https://vimeo.com/abc123" AttachmentManager)
    as (_ & Hrej & _).
  destruct (Hrej Hno) as (_ & Htrace). exact Htrace.
Defined.

(** The record committed for [notes.txt] has neither [sizeBytes] nor
    [extension]. *)
Lemma committed_record_lacks_fields :
  let file := textFile "notes.txt" 2048 in
  exists a,
    attachments
      (exec (addAttachment signatureSniffer failingCompressor KFile file)
            AttachmentManager) = attachments AttachmentManager ++ [a]
    /\ att_type a = TFile
    /\ sizeBytes a = None
    /\ sizeBytes a <> Some (file_size file)
    /\ extension a = None
    /\ extension a <> Some "txt".
Proof.
  intros file. exists (fileRecord TFile file "notes.txt").
  split; [reflexivity |]. split; [reflexivity |]. split; [reflexivity |].
  split; [discriminate |]. split; [reflexivity | discriminate].
Qed.

Lemma file_record_fields_witness :
  let file := textFile "notes.txt" 2048 in
  let a := fileRecord TFile file "notes.txt" in
  attachments
    (exec (addAttachment signatureSniffer failingCompressor KFile file)
          AttachmentManager) = attachments AttachmentManager ++ [a]
  /\ sizeOrZero a = file_size file
  /\ getFileExtension (file_name file) ∈ SUPPORTED_TEXT_EXTENSIONS.
Proof.
  intros file a.
  assert (attachments
            (exec (addAttachment signatureSniffer failingCompressor KFile file)
                  AttachmentManager) = attachments AttachmentManager ++ [a]) as H
    by reflexivity.
  split; [exact H |].
  destruct (file_record_fields signatureSniffer failingCompressor) as (Hrec & _).
  destruct (Hrec AttachmentManager file a H) as (_ & Hsize & Hext & _).
  split; [exact Hsize | exact Hext].
Defined.

(** Two sample links: a [youtu.be] link goes in through the modal,
    a vimeo link does not, but goes in when handed to [addYoutubeLink]. *)
Example youtube_modal_examples :
  attachments (exec (showYoutubeModal (Some "https://youtu.be/abc123"))
                    AttachmentManager)
  = [linkRecord TYoutube "https://youtu.be/abc123"]
  /\ showYoutubeModal (Some "https://vimeo.com/abc123") AttachmentManager
     = (tt, AttachmentManager, [Alert InvalidYoutubeUrl])
  /\ attachments (exec (addYoutubeLink "https://vimeo.com/abc123") AttachmentManager)
     = [linkRecord TYoutube "https://vimeo.com/abc123"].
Proof. split; [reflexivity | split; reflexivity]. Qed.

(** * Further properties of the manager *)

(** ** File extensions *)

Lemma split_without_separator sep s :
  ~ occurs (String sep EmptyString) s -> JS.split sep s = [s].
Proof.
  induction s as [|c s IH]; intros Hno; simpl; [done |].
  destruct (Ascii.eqb_spec c sep) as [->|Hne].
  - exfalso. apply Hno. by exists EmptyString, s.
  - rewrite IH; [done |]. intros (pre & post & ->).
    apply Hno. by exists (String c pre), post.
Qed.

Lemma split_parts_without_separator sep s :
  Forall (fun p => ~ occurs (String sep EmptyString) p) (JS.split sep s).
Proof.
  induction s as [|c s IH]; simpl.
  - apply Forall_singleton. intros (pre & post & H). by destruct pre.
  - destruct (Ascii.eqb_spec c sep) as [->|Hne].
    + apply Forall_cons. split; [|done].
      intros (pre & post & H). by destruct pre.
    + destruct (JS.split sep s) as [|p ps]; [|apply Forall_cons in IH as [Hp Hps]].
      * apply Forall_singleton. intros (pre & post & H).
        destruct pre as [|a pre]; [injection H as ? _; congruence |].
        injection H as _ H. by destruct pre.
      * apply Forall_cons. split; [|done]. intros Ho. apply Hp.
        apply (occurs_tail c); [done |]. simpl.
        destruct (Ascii.eqb_spec sep c); [congruence | done].
Qed.

Lemma split_after_separator sep base ext :
  ~ occurs (String sep EmptyString) ext ->
  (1 < length (JS.split sep (base +:+ String sep ext)))%nat
  /\ last (JS.split sep (base +:+ String sep ext)) = Some ext.
Proof.
  intros Hno. induction base as [|c base [IHlen IHlast]]; simpl.
  - rewrite Ascii.eqb_refl, (split_without_separator _ _ Hno). simpl. split; [lia | done].
  - destruct (Ascii.eqb c sep).
    + split; [simpl; lia |].
      destruct (JS.split sep (base +:+ String sep ext)); [simpl in IHlen; lia | done].
    + destruct (JS.split sep (base +:+ String sep ext)) as [|p [|q ps]];
        simpl in IHlen; [lia | lia |].
      split; [simpl; lia | done].
Qed.

Lemma last_separator_decomposition sep s :
  ~ occurs (String sep EmptyString) s
  \/ exists base ext,
       s = base +:+ String sep ext /\ ~ occurs (String sep EmptyString) ext.
Proof.
  induction s as [|c s [IH|(base & ext & -> & Hext)]].
  - left. intros (pre & post & H). by destruct pre.
  - destruct (Ascii.eqb_spec c sep) as [->|Hne].
    + right. by exists EmptyString, s.
    + left. intros Ho. apply IH. apply (occurs_tail c); [done |]. simpl.
      destruct (Ascii.eqb_spec sep c); [congruence | done].
  - right. by exists (String c base), ext.
Qed.

Lemma startsWith_single a c s :
  JS.startsWith (String a EmptyString) (String c s) = Ascii.eqb a c.
Proof. simpl. apply andb_true_r. Qed.

Lemma lower_ascii_dot c : JS.lower_ascii c = "."%char <-> c = "."%char.
Proof. destruct c as [[] [] [] [] [] [] [] []]; by vm_compute. Qed.

Lemma toLowerCase_keeps_dotless s :
  ~ occurs "." s -> ~ occurs "." (JS.toLowerCase s).
Proof.
  induction s as [|c s IH]; intros Hno; [done |]. simpl. intros Ho.
  destruct (Ascii.eqb_spec "." (JS.lower_ascii c)) as [Heq|Hne].
  - symmetry in Heq. apply lower_ascii_dot in Heq as ->.
    apply Hno. by exists EmptyString, s.
  - apply IH.
    + intros (pre & post & ->). apply Hno. by exists (String c pre), post.
    + apply (occurs_tail (JS.lower_ascii c)); [done |].
      rewrite startsWith_single. by apply Ascii.eqb_neq.
Qed.

Lemma split_toLowerCase s :
  JS.split "." (JS.toLowerCase s) = JS.toLowerCase <$> JS.split "." s.
Proof.
  induction s as [|c s IH]; simpl; [done |].
  destruct (Ascii.eqb_spec c ".") as [->|Hne].
  - simpl. by rewrite IH.
  - destruct (Ascii.eqb_spec (JS.lower_ascii c) ".") as [Heq|_];
      [apply (proj1 (lower_ascii_dot c)) in Heq; congruence |].
    rewrite IH. by destruct (JS.split "." s).
Qed.

(** X1.  [getFileExtension] gives the text after the last dot of the name,
    in lowercase: nothing for a name without a dot, and the lowercased
    [ext] for [base.ext] when [ext] has no dot.  Every name has one of
    these two forms. *)
Theorem getFileExtension_after_last_dot :
  (forall name, ~ occurs "." name -> getFileExtension name = EmptyString)
  /\ (forall base ext,
        ~ occurs "." ext ->
        getFileExtension (base +:+ "." +:+ ext) = JS.toLowerCase ext)
  /\ (forall name,
        ~ occurs "." name
        \/ exists base ext, name = base +:+ "." +:+ ext /\ ~ occurs "." ext).
Proof.
  split_and!.
  - intros name Hno. unfold getFileExtension.
    by rewrite (split_without_separator _ _ Hno).
  - intros base ext Hno. unfold getFileExtension, JS.pop.
    change (base +:+ "." +:+ ext) with (base +:+ String "."%char ext).
    destruct (split_after_separator "." base ext Hno) as [Hlen ->].
    by apply Nat.ltb_lt in Hlen as ->.
  - intros name. apply last_separator_decomposition.
Qed.

(** X2.  For a file name of ASCII characters, the extension found never
    contains a dot, is left alone by [toLowerCase], and does not depend on
    the letter case of the name. *)
Theorem getFileExtension_normal name :
  Forall (fun c => (N_of_ascii c < 128)%N) (list_ascii_of_string name) ->
  ~ occurs "." (getFileExtension name)
  /\ JS.toLowerCase (getFileExtension name) = getFileExtension name
  /\ getFileExtension (JS.toLowerCase name) = getFileExtension name.
Proof.
  intros _. split_and!.
  - unfold getFileExtension, JS.pop.
    assert (~ occurs "." EmptyString) as Hempty
      by (intros (pre & post & H); by destruct pre).
    destruct (1 <? _)%nat; [|done].
    pose proof (split_parts_without_separator "." name) as Hparts.
    destruct (last (JS.split "." name)) as [e|] eqn:Hlast; [|done].
    apply toLowerCase_keeps_dotless.
    apply last_Some_elem_of in Hlast.
    by apply (proj1 (Forall_forall _ _) Hparts).
  - apply getFileExtension_lowercase.
  - unfold getFileExtension, JS.pop.
    rewrite split_toLowerCase, length_fmap.
    destruct (1 <? _)%nat; [|done].
    rewrite fmap_last. destruct (last (JS.split "." name)); simpl; [|done].
    apply toLowerCase_idempotent.
Qed.

(** ** The preview and its remove buttons *)

Lemma of_lu_rev_digit d :
  d <> Decimal.Nil ->
  Unsigned.of_lu (Decimal.rev d)
  = (Unsigned.of_lu (Decimal.rev (Unsigned.tl d))
     + Unsigned.hd d * 10 ^ Unsigned.usize (Unsigned.tl d))%N.
Proof.
  intros Hd. destruct d; [done | ..];
    unfold Decimal.rev; simpl Decimal.revapp; rewrite Unsigned.of_lu_revapp;
    cbn [Unsigned.of_lu Unsigned.tl Unsigned.hd];
    change (Decimal.revapp d Decimal.Nil) with (Decimal.rev d); lia.
Qed.

Lemma parseDigits_string_of_uint d acc :
  JSNumber.parseDigits acc (NilEmpty.string_of_uint d)
  = (Unsigned.of_lu (Decimal.rev d) + acc * 10 ^ Unsigned.usize d)%N.
Proof.
  revert acc; induction d; intros acc;
    [simpl; lia | ..];
    rewrite of_lu_rev_digit by done;
    cbn [NilEmpty.string_of_uint JSNumber.parseDigits Unsigned.tl Unsigned.hd
         Unsigned.usize];
    match goal with
    | |- context [JSNumber.digitValue ?c] =>
        let v := eval vm_compute in (JSNumber.digitValue c) in
        change (JSNumber.digitValue c) with v
    end;
    cbv iota; rewrite IHd, N.pow_succ_r'; nia.
Qed.

Lemma parseInt_string_of_uint d :
  d <> Decimal.Nil ->
  JSNumber.parseInt (NilEmpty.string_of_uint d) = Some (Z.of_N (N.of_uint d)).
Proof.
  intros Hd.
  assert (JSNumber.parseInt (NilEmpty.string_of_uint d)
          = Some (Z.of_N (JSNumber.parseDigits 0 (NilEmpty.string_of_uint d)))) as ->.
  { destruct d; [done | ..]; unfold JSNumber.parseInt; simpl; f_equal;
      by destruct (Z.of_N _). }
  rewrite parseDigits_string_of_uint. unfold N.of_uint.
  rewrite Unsigned.of_uint_alt. do 2 f_equal. lia.
Qed.

Lemma toString_digits n :
  JSNumber.toString n = NilEmpty.string_of_uint (N.to_uint n)
  /\ N.to_uint n <> Decimal.Nil.
Proof.
  unfold JSNumber.toString. destruct n as [|p]; [done |].
  pose proof (Unsigned.to_uint_nonnil p) as Hp. simpl.
  by destruct (Pos.to_uint p).
Qed.

Lemma toString_truthy n : JS.truthy (JSNumber.toString n) = true.
Proof.
  destruct (toString_digits n) as [-> Hn]. by destruct (N.to_uint n).
Qed.

(** [parseInt] reads back every non-negative integer from its decimal text. *)
Lemma parseInt_toString n :
  JSNumber.parseInt (JSNumber.toString n) = Some (Z.of_N n).
Proof.
  destruct (toString_digits n) as [-> Hn].
  rewrite parseInt_string_of_uint by done.
  by rewrite DecimalN.Unsigned.of_to.
Qed.

Lemma splice_first {A} (l : list A) : JS.splice 0 1 l = drop 1 l.
Proof.
  destruct l as [|x l]; [done |].
  rewrite splice_in_range by (simpl; lia). done.
Qed.

(** X3.  The index text interpolated for position [i] is read back
    unchanged by the click listener: a click on a button whose
    [data-attachment-index] is that text, with [i] inside the array,
    removes exactly the attachment at position [i] and keeps the others in
    their order. *)
Theorem remove_button_removes_its_item st i :
  (i < length (attachments st))%nat ->
  JSNumber.parseInt (attachmentIndexText i) = Some (Z.of_nat i)
  /\ attachments (exec (onRemoveClick (Some (attachmentIndexText i))) st)
     = delete i (attachments st)
  /\ length (attachments (exec (onRemoveClick (Some (attachmentIndexText i))) st))
     = (length (attachments st) - 1)%nat.
Proof.
  intros Hi. unfold attachmentIndexText.
  assert (attachments
            (exec (onRemoveClick (Some (JSNumber.toString (N.of_nat i)))) st)
          = delete i (attachments st)) as Hdel.
  { unfold onRemoveClick. rewrite toString_truthy, parseInt_toString.
    rewrite removeAttachment_array, splice_in_range.
    - by rewrite nat_N_Z, Nat2Z.id.
    - rewrite nat_N_Z. lia. }
  split_and!.
  - by rewrite parseInt_toString, nat_N_Z.
  - done.
  - rewrite Hdel. apply length_delete, lookup_lt_is_Some. lia.
Qed.

(** X4.  A close button whose index is missing, empty or not a number
    does not leave the array alone: the listener falls back to position 0
    and the first attachment is removed. *)
Theorem remove_button_without_index st :
  attachments (exec (onRemoveClick None) st) = drop 1 (attachments st)
  /\ attachments (exec (onRemoveClick (Some EmptyString)) st)
     = drop 1 (attachments st)
  /\ (forall text,
        JSNumber.parseInt text = None ->
        attachments (exec (onRemoveClick (Some text)) st) = drop 1 (attachments st)).
Proof.
  split_and!.
  - apply splice_first.
  - apply splice_first.
  - intros text Hnan. unfold onRemoveClick.
    destruct (JS.truthy text); [rewrite Hnan|]; apply splice_first.
Qed.

(** ** What every reachable array satisfies *)

Lemma currentTotalSize_delete atts i a :
  atts !! i = Some a ->
  (currentTotalSize (delete i atts)
   + (if decide (att_type a = TFile) then sizeOrZero a else 0)
   = currentTotalSize atts)%N.
Proof.
  revert i; induction atts as [|b atts IH]; intros [|i] Hi; simplify_eq/=.
  - rewrite currentTotalSize_cons. case_decide; lia.
  - rewrite !currentTotalSize_cons. specialize (IH i Hi).
    repeat case_decide; lia.
Qed.

Lemma currentImageCount_delete_lookup atts i a :
  atts !! i = Some a ->
  (currentImageCount (delete i atts)
   + (if decide (att_type a = TImage) then 1 else 0)
   = currentImageCount atts)%nat.
Proof.
  unfold currentImageCount.
  revert i; induction atts as [|b atts IH]; intros [|i] Hi; simplify_eq/=.
  - rewrite filter_cons. case_decide; simpl; lia.
  - rewrite !filter_cons. specialize (IH i Hi).
    repeat case_decide; simpl; lia.
Qed.

Lemma delete_beyond {A} (l : list A) k : l !! k = None -> delete k l = l.
Proof.
  intros Hk%lookup_ge_None. rewrite delete_take_drop.
  rewrite take_ge, drop_ge by lia. apply app_nil_r.
Qed.

Lemma currentTotalSize_splice index atts :
  (currentTotalSize (JS.splice index 1 atts) <= currentTotalSize atts)%N.
Proof.
  destruct (splice_one_cases atts index) as [->|[k ->]]; [done |].
  destruct (atts !! k) as [a|] eqn:Hk.
  - pose proof (currentTotalSize_delete atts k a Hk). lia.
  - by rewrite delete_beyond.
Qed.

Section Reachable.

Variable fileTypeFromBlob : File -> option FileTypeResult.
Variable compressAttachment : File -> CompressionOptions -> Completion Blob.

Abbreviation addAttachment := (addAttachment fileTypeFromBlob compressAttachment).
Abbreviation run := (run fileTypeFromBlob compressAttachment).
Abbreviation reachable := (reachable fileTypeFromBlob compressAttachment).
Abbreviation guardedStep := (guardedStep fileTypeFromBlob).

Lemma addAttachment_guarded type file st :
  rtc guardedStep (attachments st) (attachments (exec (addAttachment type file) st)).
Proof.
  destruct type.
  - destruct (addAttachment_image_cases fileTypeFromBlob compressAttachment st file)
      as [[_ H]|[(_ & _ & H)|[(_ & _ & _ & H)|(Hty & Hsz & Hlt & _)]]];
      try (unfold exec; rewrite H; simpl; done).
    destruct (image_committed fileTypeFromBlob compressAttachment st file Hty Hsz Hlt)
      as (stored & -> & _ & Hstored).
    simpl. apply rtc_once. constructor; try done.
    + destruct (compressImages st); [|by subst].
      destruct (compressAttachment file _) as [b|e]; [|by subst].
      destruct (N.ltb_spec (blob_size b) (file_size file)); subst; [|done].
      unfold file_size at 1. simpl. lia.
    + destruct (compressImages st); [|by subst].
      destruct (compressAttachment file _) as [b|e]; [|by subst].
      by destruct (blob_size b <? file_size file)%N; subst.
  - unfold exec.
    destruct (addAttachment_file_cases fileTypeFromBlob compressAttachment st file)
      as [[_ H]|[(_ & d & _ & H)|[(_ & _ & _ & H)|[(_ & _ & _ & _ & H)
          |[(_ & _ & _ & _ & _ & H)|(? & ? & ? & ? & ? & H)]]]]];
      rewrite H; simpl; try done.
    apply rtc_once. by constructor.
Qed.

Lemma forEach_guarded {A} (body : A -> M unit) xs st :
  (forall x st', rtc guardedStep (attachments st') (attachments (exec (body x) st'))) ->
  rtc guardedStep (attachments st) (attachments (exec (forEach body xs) st)).
Proof.
  intros Hbody. revert st; induction xs as [|x xs IH]; intros st.
  - done.
  - rewrite exec_forEach_cons. etrans; [apply Hbody | apply IH].
Qed.

Lemma run_guarded op st :
  rtc guardedStep (attachments st) (attachments (exec (run op) st)).
Proof.
  destruct op as [settings|checked|value|value|files|files|type file|url|url
                  |answer|answer|index|]; simpl; try done.
  - apply forEach_guarded. intros file st'.
    destruct (JS.startsWith _ _); [apply addAttachment_guarded | done].
  - apply forEach_guarded. intros file st'. apply addAttachment_guarded.
  - apply addAttachment_guarded.
  - apply rtc_once, guarded_youtube.
  - apply rtc_once, guarded_wikipedia.
  - destruct answer as [url|]; [|done]. unfold showYoutubeModal.
    destruct (JS.truthy url && _); [apply rtc_once, guarded_youtube |].
    by destruct (JS.truthy url).
  - destruct answer as [url|]; [|done]. unfold showWikipediaModal.
    destruct (JS.truthy url && _); [apply rtc_once, guarded_wikipedia |].
    by destruct (JS.truthy url).
  - apply rtc_once, guarded_splice.
  - apply rtc_once, guarded_clear.
Qed.

Lemma reachable_guarded_invariant (P : list Attachment -> Prop) :
  P [] ->
  (forall atts atts', guardedStep atts atts' -> P atts -> P atts') ->
  forall st, reachable st -> P (attachments st).
Proof.
  intros Hnil Hstep st Hst. induction Hst as [|st op _ IH]; [done |].
  pose proof (run_guarded op st) as Hrun.
  induction Hrun as [|x y z Hxy _ IHrun]; [done |].
  apply IHrun. by eapply Hstep.
Qed.

(** A property of single records that every committed record has holds of
    every record of every reachable array. *)
Lemma reachable_records (Q : Attachment -> Prop) :
  (forall atts atts' a, guardedStep atts atts' -> atts' = atts ++ [a] -> Q a) ->
  forall st, reachable st -> Forall Q (attachments st).
Proof.
  intros Hnew. apply reachable_guarded_invariant; [done |].
  intros atts atts' Hstep Hall.
  assert (forall a, atts' = atts ++ [a] -> Forall Q atts') as Hpush.
  { intros a ->. apply Forall_app. split; [done |].
    apply Forall_singleton. by eapply Hnew. }
  destruct Hstep; try (by eapply Hpush).
  - unfold JS.splice. apply Forall_app.
    split; [by apply Forall_take | by apply Forall_drop].
  - done.
Qed.

(** X5.  In every manager the host can reach, the file attachments held
    add up to at most 10 MiB. *)
Theorem reachable_total_size st :
  reachable st -> (currentTotalSize (attachments st) <= 10 * MiB)%N.
Proof.
  apply (reachable_guarded_invariant
           (fun atts => (currentTotalSize atts <= 10 * MiB)%N)).
  - by vm_compute.
  - intros atts atts' Hstep Hle.
    destruct Hstep as [atts file stored _ _ _ _ _|atts file _ _ _ _ Htot
                      |atts url|atts url|atts index|atts];
      rewrite ?currentTotalSize_push; simpl.
    + done.
    + unfold sizeOrZero. simpl.
      unfold MAX_TOTAL_FILE_SIZE_BYTES, MiB in *. lia.
    + done.
    + done.
    + pose proof (currentTotalSize_splice index atts). lia.
    + by vm_compute.
Qed.

End Reachable.

Section Records.

Variable fileTypeFromBlob : File -> option FileTypeResult.
Variable compressAttachment : File -> CompressionOptions -> Completion Blob.

Abbreviation reachable := (reachable fileTypeFromBlob compressAttachment).

(** What holds of each record of a reachable array, by its type. *)
Lemma reachable_record_shape st a :
  reachable st -> a ∈ attachments st ->
  match att_type a with
  | TImage =>
      exists f, a = fileRecord TImage f (file_name f)
                /\ (file_size f <= MAX_SIZE_BYTES)%N
  | TFile =>
      exists f, a = fileRecord TFile f (file_name f)
                /\ isSupportedTextFile (getFileExtension (file_name f)) = true
                /\ fileTypeFromBlob f = None
                /\ (file_type f = EmptyString \/ isTextMimeType (file_type f) = true)
                /\ (file_size f <= MAX_FILE_SIZE_BYTES)%N
  | TYoutube => exists url, a = linkRecord TYoutube url
  | TWikipedia => exists url, a = linkRecord TWikipedia url
  end.
Proof.
  intros Hst Hin. revert a Hin. apply Forall_forall. revert st Hst.
  apply reachable_records. intros atts atts' a Hstep Heq.
  destruct Hstep as [atts file stored Hty Hsz Hlt Hle Hname|atts file ? ? ? ? ?
                    |atts url|atts url|atts index|atts].
  - apply app_inj_tail in Heq as [_ <-]. simpl. exists stored.
    rewrite Hname. split; [done | lia].
  - apply app_inj_tail in Heq as [_ <-]. simpl. by exists file.
  - apply app_inj_tail in Heq as [_ <-]. simpl. by exists url.
  - apply app_inj_tail in Heq as [_ <-]. simpl. by exists url.
  - exfalso. apply (f_equal length) in Heq. rewrite length_app in Heq. simpl in Heq.
    destruct (splice_one_cases atts index) as [Hs|[k Hs]]; rewrite Hs in Heq; [lia |].
    pose proof (sublist_length _ _ (sublist_delete atts k)). lia.
  - by destruct atts.
Qed.

(** X6.  Every image attachment of a reachable manager holds a file of at
    most 10 MiB, also after compression, under the name of that file, and
    no URL. *)
Theorem reachable_image_records st a :
  reachable st -> a ∈ attachments st -> att_type a = TImage ->
  exists f,
    att_file a = Some f
    /\ att_name a = Some (file_name f)
    /\ att_url a = None
    /\ (file_size f <= 10 * MiB)%N.
Proof.
  intros Hst Hin Hty. pose proof (reachable_record_shape st a Hst Hin) as H.
  rewrite Hty in H. destruct H as (f & -> & Hsz). exists f.
  split_and!; done.
Qed.

(** X7.  Every text-file attachment of a reachable manager holds the file
    that was submitted, under its name: the extension of the name is in
    the allow-list, the sniffer found no format in the file, its declared
    MIME type is empty or a text type, and it is at most 10 MiB. *)
Theorem reachable_file_records st a :
  reachable st -> a ∈ attachments st -> att_type a = TFile ->
  exists f,
    att_file a = Some f
    /\ att_name a = Some (file_name f)
    /\ att_url a = None
    /\ getFileExtension (file_name f) ∈ SUPPORTED_TEXT_EXTENSIONS
    /\ fileTypeFromBlob f = None
    /\ (file_type f = EmptyString
        \/ JS.startsWith "text/" (file_type f) = true
        \/ file_type f ∈ SAFE_TEXT_MIME_TYPES)
    /\ (file_size f <= 10 * MiB)%N.
Proof.
  intros Hst Hin Hty. pose proof (reachable_record_shape st a Hst Hin) as H.
  rewrite Hty in H. destruct H as (f & -> & Hext & Hsniff & Hmime & Hsz).
  exists f. split_and!; try done.
  - by apply isSupportedTextFile_spec.
  - destruct Hmime as [?|Hmime%isTextMimeType_spec]; [by left | by right].
Qed.

(** X8.  Every link attachment of a reachable manager holds a URL and
    nothing else: no file and no name. *)
Theorem reachable_link_records st a :
  reachable st -> a ∈ attachments st ->
  att_type a = TYoutube \/ att_type a = TWikipedia ->
  att_file a = None
  /\ att_name a = None
  /\ exists url, att_url a = Some url.
Proof.
  intros Hst Hin Hty. pose proof (reachable_record_shape st a Hst Hin) as H.
  destruct Hty as [Hty|Hty]; rewrite Hty in H; destruct H as (url & ->);
    (split_and!; [done | done | by exists url]).
Qed.

End Records.

(** ** One call, one outcome *)

Lemma lastShown_app t1 t2 :
  lastShown (t1 ++ t2)
  = match lastShown t2 with Some shown => Some shown | None => lastShown t1 end.
Proof.
  induction t1 as [|e t1 IH]; simpl; [by destruct (lastShown t2) |].
  rewrite IH. by destruct (lastShown t2).
Qed.

Section Outcomes.

Variable fileTypeFromBlob : File -> option FileTypeResult.
Variable compressAttachment : File -> CompressionOptions -> Completion Blob.

Abbreviation addAttachment := (addAttachment fileTypeFromBlob compressAttachment).
Abbreviation run := (run fileTypeFromBlob compressAttachment).

(** The whole run of an accepted image: console lines only, then the push
    and the refresh. *)
Lemma image_committed_run st file :
  file_type file ∈ SUPPORTED_TYPES ->
  (file_size file <= MAX_SIZE_BYTES)%N ->
  (currentImageCount (attachments st) < MAX_IMAGES)%nat ->
  exists stored log,
    addAttachment KImage file st
    = (tt,
       set_attachments
         (attachments st ++ [fileRecord TImage stored (file_name file)]) st,
       log ++ [Preview (attachments st ++ [fileRecord TImage stored (file_name file)])])
    /\ alerts log = []
    /\ lastShown log = None
    /\ (compressImages st = false -> stored = file /\ log = []).
Proof.
  intros H1 H2%N.ltb_ge H3%Nat.leb_gt. unfold_method.
  rewrite arr_indexOf_eqb, bool_decide_eq_false_2 by (by intros ?).
  rewrite H2. reduce_method. rewrite H3. reduce_method.
  rewrite (supported_image_prefix _ H1).
  destruct (compressImages st); [|by exists file, []].
  destruct (compressAttachment file (compressionOptions st)) as [b|e].
  - destruct (blob_size b <? file_size file)%N;
      eexists; eexists (_ :: _ :: []); split_and!; done.
  - eexists; eexists (_ :: _ :: []); split_and!; done.
Qed.

(** The two ways a call of [addAttachment] can end. *)
Lemma addAttachment_two_ways type file st :
  (exec (addAttachment type file) st = st
   /\ exists m, trace (addAttachment type file) st = [Alert m])
  \/ (exists a,
        exec (addAttachment type file) st
        = set_attachments (attachments st ++ [a]) st
        /\ att_type a = kindType type
        /\ att_name a = Some (file_name file)
        /\ alerts (trace (addAttachment type file) st) = []
        /\ lastShown (trace (addAttachment type file) st)
           = Some (attachments st ++ [a])).
Proof.
  unfold exec, trace. destruct type.
  - destruct (addAttachment_image_cases fileTypeFromBlob compressAttachment st file)
      as [[_ H]|[(_ & _ & H)|[(_ & _ & _ & H)|(Hty & Hsz & Hlt & _)]]];
      try (left; rewrite H; simpl; split; [done | by eexists]).
    right. destruct (image_committed_run st file Hty Hsz Hlt)
      as (stored & log & -> & Hal & Hshown & _).
    eexists. simpl. split_and!; try done.
    + by rewrite alerts_app, Hal.
    + by rewrite lastShown_app.
  - destruct (addAttachment_file_cases fileTypeFromBlob compressAttachment st file)
      as [[_ H]|[(_ & d & _ & H)|[(_ & _ & _ & H)|[(_ & _ & _ & _ & H)
          |[(_ & _ & _ & _ & _ & H)|(_ & _ & _ & _ & _ & H)]]]]];
      try (left; rewrite H; simpl; split; [done | by eexists]).
    right. rewrite H. eexists. simpl. split_and!; done.
Qed.

(** X10.  Every call of [addAttachment] ends in one of two ways.  Either
    the candidate is turned away: the manager is left as it was and
    exactly one alert is shown, with no preview refresh.  Or it is
    committed: exactly one record of the requested type, named after the
    file, is appended, no alert is shown, and the preview is refreshed
    with the new array. *)
Theorem addAttachment_outcome type file st :
  (exec (addAttachment type file) st = st
   /\ exists m, trace (addAttachment type file) st = [Alert m])
  \/ (exists a,
        exec (addAttachment type file) st
        = set_attachments (attachments st ++ [a]) st
        /\ att_type a = kindType type
        /\ att_name a = Some (file_name file)
        /\ alerts (trace (addAttachment type file) st) = []
        /\ lastShown (trace (addAttachment type file) st)
           = Some (attachments st ++ [a])).
Proof. apply addAttachment_two_ways. Qed.

(** X11.  The two kinds of candidate do not use up each other's budget:
    whatever happens to a file candidate, the number of images held stays
    the same, and whatever happens to an image candidate, the total size
    of the files held stays the same; links change neither. *)
Theorem budgets_independent file url st :
  currentImageCount (attachments (exec (addAttachment KFile file) st))
  = currentImageCount (attachments st)
  /\ currentTotalSize (attachments (exec (addAttachment KImage file) st))
     = currentTotalSize (attachments st)
  /\ currentImageCount (attachments (exec (addYoutubeLink url) st))
     = currentImageCount (attachments st)
  /\ currentTotalSize (attachments (exec (addYoutubeLink url) st))
     = currentTotalSize (attachments st)
  /\ currentImageCount (attachments (exec (addWikipediaLink url) st))
     = currentImageCount (attachments st)
  /\ currentTotalSize (attachments (exec (addWikipediaLink url) st))
     = currentTotalSize (attachments st).
Proof.
  split_and!.
  - destruct (addAttachment_two_ways KFile file st)
      as [[-> _]|(a & -> & Hty & _)]; [done |].
    simpl. rewrite currentImageCount_push, Hty. simpl. lia.
  - destruct (addAttachment_two_ways KImage file st)
      as [[-> _]|(a & -> & Hty & _)]; [done |].
    simpl. by rewrite currentTotalSize_push, Hty.
  - unfold exec. simpl. rewrite currentImageCount_push. simpl. lia.
  - unfold exec. simpl. by rewrite currentTotalSize_push.
  - unfold exec. simpl. rewrite currentImageCount_push. simpl. lia.
  - unfold exec. simpl. by rewrite currentTotalSize_push.
Qed.

(** X12.  After any operation the preview is up to date: the last refresh
    of the operation drew the array as the operation left it, and an
    operation that refreshed nothing left the array as it was. *)
Theorem preview_shows_current_array op st :
  match lastShown (trace (run op) st) with
  | Some shown => shown = attachments (exec (run op) st)
  | None => attachments (exec (run op) st) = attachments st
  end.
Proof.
  assert (forall type file st',
            match lastShown (trace (addAttachment type file) st') with
            | Some shown => shown = attachments (exec (addAttachment type file) st')
            | None => attachments (exec (addAttachment type file) st') = attachments st'
            end) as Hadd.
  { intros type file st'.
    destruct (addAttachment_two_ways type file st')
      as [[-> [m ->]]|(a & -> & _ & _ & _ & ->)]; done. }
  assert (forall (body : File -> M unit),
            (forall file st',
                match lastShown (trace (body file) st') with
                | Some shown => shown = attachments (exec (body file) st')
                | None => attachments (exec (body file) st') = attachments st'
                end) ->
            forall files st',
              match lastShown (trace (forEach body files) st') with
              | Some shown => shown = attachments (exec (forEach body files) st')
              | None => attachments (exec (forEach body files) st') = attachments st'
              end) as Heach.
  { intros body Hbody files. induction files as [|file files IH]; intros st'; [done |].
    rewrite exec_forEach_cons, trace_forEach_cons, lastShown_app.
    specialize (IH (exec (body file) st')). specialize (Hbody file st').
    destruct (lastShown (trace (forEach body files) _)); [done |].
    destruct (lastShown (trace (body file) st')); congruence. }
  destruct op as [settings|checked|value|value|files|files|type file|url|url
                  |answer|answer|index|]; simpl run; try done.
  - apply Heach. intros file st'.
    destruct (JS.startsWith _ _); [apply Hadd | done].
  - apply Heach. intros file st'. apply Hadd.
  - apply Hadd.
  - destruct answer as [url|]; [|done]. unfold showYoutubeModal.
    destruct (JS.truthy url && _); [done |]. by destruct (JS.truthy url).
  - destruct answer as [url|]; [|done]. unfold showWikipediaModal.
    destruct (JS.truthy url && _); [done |]. by destruct (JS.truthy url).
Qed.

End Outcomes.

(** ** Batches and settings *)

Section Batches.

Variable fileTypeFromBlob : File -> option FileTypeResult.
Variable compressAttachment : File -> CompressionOptions -> Completion Blob.

Abbreviation addAttachment := (addAttachment fileTypeFromBlob compressAttachment).
Abbreviation onImageInputChange :=
  (onImageInputChange fileTypeFromBlob compressAttachment).

(** One supported image of a batch: taken while fewer than 8 are held,
    turned away with the count alert otherwise. *)
Lemma image_batch_step st file files :
  file_type file ∈ SUPPORTED_TYPES ->
  (file_size file <= 10 * MiB)%N ->
  exists st1 shown,
    exec (onImageInputChange (file :: files)) st
    = exec (onImageInputChange files) st1
    /\ alerts (trace (onImageInputChange (file :: files)) st)
       = shown ++ alerts (trace (onImageInputChange files) st1)
    /\ ((currentImageCount (attachments st) < 8
         /\ currentImageCount (attachments st1) = S (currentImageCount (attachments st))
         /\ length (attachments st1) = S (length (attachments st))
         /\ shown = [])
        \/ (8 <= currentImageCount (attachments st)
            /\ st1 = st /\ shown = [TooManyImages]))%nat.
Proof.
  intros Hty Hsz. exists (exec (addAttachment KImage file) st),
    (alerts (trace (addAttachment KImage file) st)).
  unfold onImageInputChange.
  rewrite exec_forEach_cons, trace_forEach_cons, alerts_app.
  rewrite (supported_image_prefix _ Hty). split_and!; [done | done |].
  destruct (Nat.lt_ge_cases (currentImageCount (attachments st)) 8) as [Hlt|Hge].
  - left. destruct (image_committed fileTypeFromBlob compressAttachment st file Hty)
      as (stored & -> & -> & _); [done | done |].
    simpl. rewrite currentImageCount_push, length_app. simpl.
    split_and!; [done | lia | lia | done].
  - right. unfold exec, trace.
    by rewrite (image_limit_reached fileTypeFromBlob compressAttachment st file Hty).
Qed.

(** X13.  A batch of supported images, each at most 10 MiB, picked while
    [k <= 8] images are held: the images are taken one by one in order
    until 8 are held, and each further one is turned away with the count
    alert.  So [min (k + n) 8] images are held afterwards and
    [k + n - 8] alerts are shown. *)
Theorem image_batch_fills_to_limit files st :
  Forall (fun f => file_type f ∈ SUPPORTED_TYPES /\ (file_size f <= 10 * MiB)%N) files ->
  (currentImageCount (attachments st) <= 8)%nat ->
  currentImageCount (attachments (exec (onImageInputChange files) st))
  = Nat.min (currentImageCount (attachments st) + length files) 8
  /\ length (attachments (exec (onImageInputChange files) st))
     = (length (attachments st)
        + (Nat.min (currentImageCount (attachments st) + length files) 8
           - currentImageCount (attachments st)))%nat
  /\ alerts (trace (onImageInputChange files) st)
     = replicate (currentImageCount (attachments st) + length files - 8) TooManyImages.
Proof.
  intros Hall. revert st. induction Hall as [|file files [Hty Hsz] _ IH]; intros st Hk.
  - change (exec (onImageInputChange []) st) with st.
    change (trace (onImageInputChange []) st) with (@nil Effect).
    simpl length. split_and!; [lia | lia |].
    by replace (currentImageCount (attachments st) + 0 - 8)%nat with 0%nat by lia.
  - destruct (image_batch_step st file files Hty Hsz)
      as (st1 & shown & -> & -> & [(Hlt & Hcnt & Hlen & ->)|(Hge & -> & ->)]).
    + destruct (IH st1) as (-> & -> & ->); [lia |].
      rewrite Hcnt, Hlen. simpl length. split_and!; [lia | lia |].
      simpl. f_equal. lia.
    + destruct (IH st) as (-> & -> & ->); [lia |].
      simpl length. split_and!; [lia | lia |].
      replace (currentImageCount (attachments st) + S (length files) - 8)%nat
        with (S (currentImageCount (attachments st) + length files - 8)) by lia.
      done.
Qed.

(** X14.  Files whose declared type does not start with "image/" are
    passed over by the image picker without an alert: picking a batch has
    the same effect on the manager, and shows the same alerts, as picking
    only its files of an image type. *)
Theorem image_picker_skips_other_types files st :
  exec (onImageInputChange files) st
  = exec (onImageInputChange
            (filter (fun f => JS.startsWith "image/" (file_type f) = true) files)) st
  /\ alerts (trace (onImageInputChange files) st)
     = alerts (trace (onImageInputChange
                        (filter (fun f => JS.startsWith "image/" (file_type f) = true)
                                files)) st).
Proof.
  revert st. induction files as [|file files IH]; intros st; [done |].
  rewrite filter_cons. unfold onImageInputChange in *.
  rewrite exec_forEach_cons, trace_forEach_cons, alerts_app.
  case_decide as Himg.
  - rewrite exec_forEach_cons, trace_forEach_cons, alerts_app.
    destruct (IH (exec (if JS.startsWith "image/" (file_type file)
                        then addAttachment KImage file
                        else console (SkippingNonImage (file_name file))) st))
      as [-> ->].
    done.
  - apply not_true_is_false in Himg. rewrite Himg.
    destruct (IH st) as [<- <-]. done.
Qed.

(** X15.  With compression switched off, an image that passes the checks
    is stored exactly as submitted: the record holds the original file,
    the compressor is not called and nothing is logged. *)
Theorem uncompressed_image_kept st file :
  file_type file ∈ SUPPORTED_TYPES ->
  (file_size file <= 10 * MiB)%N ->
  (currentImageCount (attachments st) < 8)%nat ->
  compressImages st = false ->
  addAttachment KImage file st
  = (tt,
     set_attachments (attachments st ++ [fileRecord TImage file (file_name file)]) st,
     [Preview (attachments st ++ [fileRecord TImage file (file_name file)])]).
Proof.
  intros Hty Hsz Hlt Hoff.
  destruct (image_committed_run fileTypeFromBlob compressAttachment st file Hty)
    as (stored & log & -> & _ & _ & Hsame); [done | done |].
  by destruct (Hsame Hoff) as [-> ->].
Qed.

End Batches.

Section Settings.

Variable fileTypeFromBlob : File -> option FileTypeResult.
Variable compressAttachment : File -> CompressionOptions -> Completion Blob.

Abbreviation addAttachment := (addAttachment fileTypeFromBlob compressAttachment).
Abbreviation run := (run fileTypeFromBlob compressAttachment).

(** X16.  The settings in force when an image is added are the ones last
    set.  After [init], an image that passes the checks is compressed
    exactly when the loaded settings say so, with the loaded quality and
    dimension; after the toggle is switched on and the two sliders are
    moved, it is compressed with the values of the sliders.  None of
    these changes touches the attachments. *)
Theorem image_uses_current_settings st file :
  file_type file ∈ SUPPORTED_TYPES ->
  (file_size file <= 10 * MiB)%N ->
  (currentImageCount (attachments st) < 8)%nat ->
  (forall settings,
      attachments (exec (init settings) st) = attachments st
      /\ exists stored,
           attachments (exec (addAttachment KImage file) (exec (init settings) st))
           = attachments st ++ [fileRecord TImage stored (file_name file)]
           /\ if compressAttachedImages settings
              then match compressAttachment file
                           (mkOptions (compressionQuality settings)
                                      (compressionMaxDimension settings)) with
                   | Returned b =>
                       if (blob_size b <? file_size file)%N
                       then stored = newFile b (file_name file) (blob_type b)
                       else stored = file
                   | Thrown _ => stored = file
                   end
              else stored = file)
  /\ (forall q d,
        let st' := exec (onDimensionInput d)
                     (exec (onQualityInput q) (exec (onCompressToggle true) st)) in
        attachments st' = attachments st
        /\ exists stored,
             attachments (exec (addAttachment KImage file) st')
             = attachments st ++ [fileRecord TImage stored (file_name file)]
             /\ match compressAttachment file (mkOptions q d) with
                | Returned b =>
                    if (blob_size b <? file_size file)%N
                    then stored = newFile b (file_name file) (blob_type b)
                    else stored = file
                | Thrown _ => stored = file
                end).
Proof.
  intros Hty Hsz Hlt. split.
  - intros settings. split; [done |].
    destruct (image_committed fileTypeFromBlob compressAttachment
                (exec (init settings) st) file Hty)
      as (stored & -> & _ & Hstored); [done | done |].
    by exists stored.
  - intros q d st'. split; [done |].
    destruct (image_committed fileTypeFromBlob compressAttachment st' file Hty)
      as (stored & -> & _ & Hstored); [done | done |].
    by exists stored.
Qed.

(** X17.  [clearAttachments] empties the array whatever it held, and with
    it both budgets: right afterwards a text file that passes the checks
    on its own name, content, type and size is committed, and so is an
    image of a supported type and size, however full the manager was. *)
Theorem clear_resets_limits st file :
  attachments (exec clearAttachments st) = []
  /\ (isSupportedTextFile (getFileExtension (file_name file)) = true ->
      fileTypeFromBlob file = None ->
      file_type file = EmptyString \/ isTextMimeType (file_type file) = true ->
      (file_size file <= 10 * MiB)%N ->
      attachments (exec (addAttachment KFile file) (exec clearAttachments st))
      = [fileRecord TFile file (file_name file)])
  /\ (file_type file ∈ SUPPORTED_TYPES ->
      (file_size file <= 10 * MiB)%N ->
      exists stored,
        attachments (exec (addAttachment KImage file) (exec clearAttachments st))
        = [fileRecord TImage stored (file_name file)]).
Proof.
  split_and!.
  - done.
  - intros Hext Hsniff Hmime Hsz. unfold exec at 1.
    rewrite (file_committed fileTypeFromBlob compressAttachment
               (exec clearAttachments st) file Hext Hsniff Hmime); done.
  - intros Hty Hsz.
    destruct (image_committed fileTypeFromBlob compressAttachment
                (exec clearAttachments st) file Hty)
      as (stored & -> & _); [done | by vm_compute; lia |].
    by exists stored.
Qed.

Lemma run_keeps_flags op st :
  useSearch (exec (run op) st) = useSearch st
  /\ useDatabase (exec (run op) st) = useDatabase st.
Proof.
  assert (forall type file st',
            useSearch (exec (addAttachment type file) st') = useSearch st'
            /\ useDatabase (exec (addAttachment type file) st') = useDatabase st')
    as Hadd.
  { intros type file st'.
    by destruct (addAttachment_two_ways fileTypeFromBlob compressAttachment
                   type file st') as [[-> _]|(a & -> & _)]. }
  assert (forall (body : File -> M unit),
            (forall file st',
                useSearch (exec (body file) st') = useSearch st'
                /\ useDatabase (exec (body file) st') = useDatabase st') ->
            forall files st',
              useSearch (exec (forEach body files) st') = useSearch st'
              /\ useDatabase (exec (forEach body files) st') = useDatabase st')
    as Heach.
  { intros body Hbody files. induction files as [|file files IH]; intros st'; [done |].
    rewrite exec_forEach_cons. destruct (IH (exec (body file) st')) as [-> ->].
    apply Hbody. }
  destruct op as [settings|checked|value|value|files|files|type file|url|url
                  |answer|answer|index|]; simpl run; try done.
  - apply Heach. intros file st'.
    destruct (JS.startsWith _ _); [apply Hadd | done].
  - apply Heach. intros file st'. apply Hadd.
  - destruct answer as [url|]; [|done]. unfold showYoutubeModal.
    destruct (JS.truthy url && _); [done |]. by destruct (JS.truthy url).
  - destruct answer as [url|]; [|done]. unfold showWikipediaModal.
    destruct (JS.truthy url && _); [done |]. by destruct (JS.truthy url).
Qed.

(** X18.  The class given to the plus icon tells the two flags apart: two
    managers get the same class exactly when they agree on [useDatabase]
    and on [useSearch].  No operation on attachments changes either flag,
    so none changes the indicator. *)
Theorem indicator_tells_flags :
  (forall st1 st2,
      updateIndicator st1 = updateIndicator st2
      <-> useDatabase st1 = useDatabase st2 /\ useSearch st1 = useSearch st2)
  /\ (forall op st, updateIndicator (exec (run op) st) = updateIndicator st).
Proof.
  split.
  - intros st1 st2. unfold updateIndicator.
    destruct (useDatabase st1), (useSearch st1), (useDatabase st2), (useSearch st2);
      simpl; split; (intros [? ?] || intros ?); done.
  - intros op st. unfold updateIndicator.
    by destruct (run_keeps_flags op st) as [-> ->].
Qed.

End Settings.

(** ** Removal, again *)

(** X19.  Removing the last position undoes a push: whenever the array is
    some [atts] followed by one more record, [removeAttachment] at
    position [length atts], or at position [-1], gives back [atts]. *)
Theorem remove_last_undoes_push st atts a :
  attachments st = atts ++ [a] ->
  attachments (exec (removeAttachment (Z.of_nat (length atts))) st) = atts
  /\ attachments (exec (removeAttachment (-1)) st) = atts.
Proof.
  intros Heq. rewrite !removeAttachment_array, Heq. split.
  - rewrite splice_in_range by (rewrite length_app; simpl; lia).
    rewrite Nat2Z.id. rewrite (delete_middle atts [] a). apply app_nil_r.
  - rewrite splice_negative by lia.
    replace (Z.to_nat (Z.max (Z.of_nat (length (atts ++ [a])) + -1) 0))
      with (length atts) by (rewrite length_app; simpl; lia).
    rewrite (delete_middle atts [] a). apply app_nil_r.
Qed.

(** X20.  Removing an attachment gives back exactly what it used: removing
    a text file lowers the total file size by the size of that file and
    leaves the image count alone; removing an image lowers the image count
    by one and leaves the total alone; removing a link changes neither. *)
Theorem removal_frees_budget st index a :
  0 <= index ->
  attachments st !! Z.to_nat index = Some a ->
  (currentTotalSize (attachments (exec (removeAttachment index) st))
   + (if decide (att_type a = TFile) then sizeOrZero a else 0)
   = currentTotalSize (attachments st))%N
  /\ (currentImageCount (attachments (exec (removeAttachment index) st))
      + (if decide (att_type a = TImage) then 1 else 0)
      = currentImageCount (attachments st))%nat.
Proof.
  intros Hpos Ha. rewrite removeAttachment_array.
  rewrite splice_in_range by (apply lookup_lt_Some in Ha; lia).
  split; [by apply currentTotalSize_delete | by apply currentImageCount_delete_lookup].
Qed.

(** ** The two pickers, the icons *)

Lemma supported_image_type_not_text ty :
  ty ∈ SUPPORTED_TYPES -> JS.truthy ty = true /\ isTextMimeType ty = false.
Proof.
  unfold SUPPORTED_TYPES. rewrite !elem_of_cons, elem_of_nil.
  intros [->|[->|[->|[->|[]]]]]; by vm_compute.
Qed.

Section Pickers.

Variable fileTypeFromBlob : File -> option FileTypeResult.
Variable compressAttachment : File -> CompressionOptions -> Completion Blob.

Abbreviation addAttachment := (addAttachment fileTypeFromBlob compressAttachment).

(** X21.  No file is acceptable to both paths.  A file that the file path
    commits, in some manager, is turned away by the image path in every
    manager with the unsupported-format alert; a file that the image path
    commits is turned away by the file path in every manager. *)
Theorem paths_accept_disjoint file :
  (forall st a,
      attachments (exec (addAttachment KFile file) st) = attachments st ++ [a] ->
      forall st',
        addAttachment KImage file st'
        = (tt, st', [Alert (UnsupportedImageFormat (file_type file))]))
  /\ (forall st a,
        attachments (exec (addAttachment KImage file) st) = attachments st ++ [a] ->
        forall st',
          exec (addAttachment KFile file) st' = st'
          /\ exists m, trace (addAttachment KFile file) st' = [Alert m]).
Proof.
  split.
  - intros st a Hcommit st'.
    destruct (file_commit_inversion _ _ _ _ _ Hcommit) as (_ & _ & _ & Hmime & _).
    apply image_unsupported_format. intros Hty.
    destruct (supported_image_type_not_text _ Hty) as [Htruthy Hno].
    destruct Hmime as [Hempty|Htext]; [by rewrite Hempty in Htruthy | congruence].
  - intros st a Hcommit st'.
    assert (file_type file ∈ SUPPORTED_TYPES) as Hty.
    { destruct (addAttachment_image_cases fileTypeFromBlob compressAttachment st file)
        as [[_ H]|[(_ & _ & H)|[(_ & _ & _ & H)|(Hty & _)]]]; [| | |done];
        unfold exec in Hcommit; rewrite H in Hcommit; simpl in Hcommit;
        by apply eq_sym, push_changes_array in Hcommit. }
    destruct (supported_image_type_not_text _ Hty) as [Htruthy Hno].
    unfold exec, trace.
    destruct (addAttachment_file_cases fileTypeFromBlob compressAttachment st' file)
      as [[_ H]|[(_ & d & _ & H)|[(_ & _ & _ & H)|[(_ & _ & Hok & _)
          |[(_ & _ & Hok & _)|(_ & _ & Hok & _)]]]]];
      try (rewrite H; simpl; split; [done | by eexists]);
      exfalso; (destruct Hok as [Hempty|Htext];
                [by rewrite Hempty in Htruthy | congruence]).
Qed.

End Pickers.

Lemma known_icon_class e :
  e ∈ KNOWN_ICONS -> getFileIcon e = "bi bi-filetype-" +:+ e.
Proof.
  intros Hin. unfold getFileIcon.
  by rewrite arr_indexOf_eqb, bool_decide_eq_false_2 by (by intros ?).
Qed.

Lemma unknown_icon_class e :
  e ∉ KNOWN_ICONS -> getFileIcon e = "bi bi-file-earmark-code".
Proof.
  intros Hin. unfold getFileIcon.
  by rewrite arr_indexOf_eqb, bool_decide_eq_true_2.
Qed.

(** X22.  [getFileIcon] gives the generic icon exactly for the extensions
    outside the icon table, and distinct extensions of the table get
    distinct icons.  Every extension of the icon table is one the manager
    accepts, so every icon of the table can show up in the preview. *)
Theorem getFileIcon_classes :
  (forall e, getFileIcon e = "bi bi-file-earmark-code" <-> e ∉ KNOWN_ICONS)
  /\ (forall e1 e2,
        e1 ∈ KNOWN_ICONS -> getFileIcon e1 = getFileIcon e2 -> e1 = e2)
  /\ Forall (fun e => isSupportedTextFile e = true) KNOWN_ICONS.
Proof.
  assert (forall e, "bi bi-filetype-" +:+ e <> "bi bi-file-earmark-code") as Hgen.
  { intros e H. simpl in H. discriminate H. }
  split_and!.
  - intros e. split.
    + intros Hicon Hin. rewrite (known_icon_class e Hin) in Hicon. by eapply Hgen.
    + apply unknown_icon_class.
  - intros e1 e2 Hin1 Heq. rewrite (known_icon_class e1 Hin1) in Heq.
    destruct (decide (e2 ∈ KNOWN_ICONS)) as [Hin2|Hout2].
    + rewrite (known_icon_class e2 Hin2) in Heq. simpl in Heq. by injection Heq.
    + rewrite (unknown_icon_class e2 Hout2) in Heq. by apply Hgen in Heq.
  - by vm_compute; repeat constructor.
Qed.

(** * The further properties on sample candidates *)

Lemma getFileExtension_after_last_dot_witness :
  ~ occurs "." "Makefile"
  /\ getFileExtension "Makefile" = EmptyString
  /\ ~ occurs "." "GZ"
  /\ getFileExtension ("backup.tar" +:+ "." +:+ "GZ") = "gz".
Proof.
  assert (~ occurs "." "Makefile") as H1 by (apply includes_false; reflexivity).
  assert (~ occurs "." "GZ") as H2 by (apply includes_false; reflexivity).
  destruct getFileExtension_after_last_dot as (Hnone & Hlast & _).
  split; [exact H1 |]. split; [exact (Hnone _ H1) |]. split; [exact H2 |].
  exact (Hlast "backup.tar" "GZ" H2).
Defined.

Lemma getFileExtension_normal_witness :
  Forall (fun c => (N_of_ascii c < 128)%N) (list_ascii_of_string "Report.Final.TXT")
  /\ getFileExtension "Report.Final.TXT" = "txt"
  /\ getFileExtension (JS.toLowerCase "Report.Final.TXT")
     = getFileExtension "Report.Final.TXT".
Proof.
  assert (Forall (fun c => (N_of_ascii c < 128)%N)
                 (list_ascii_of_string "Report.Final.TXT")) as H
    by (simpl list_ascii_of_string;
        repeat (apply List.Forall_cons; [reflexivity |]); apply List.Forall_nil).
  split; [exact H |]. split; [reflexivity |].
  destruct (getFileExtension_normal "Report.Final.TXT" H) as (_ & _ & Hcase).
  exact Hcase.
Defined.

Lemma overlapping_image_calls_witness :
  let st := holding sevenImages in
  let f1 := pngImage "eighth.png" 2048 in
  let f2 := pngImage "ninth.png" 2048 in
  currentImageCount (attachments st) = 7%nat
  /\ addImageUntilAwait f1 st
     = (AwaitingCompressor f1 (mkOptions 85 2048), st,
        [Console (Compressing "eighth.png" 2048)])
  /\ addImageUntilAwait f2 st
     = (AwaitingCompressor f2 (mkOptions 85 2048), st,
        [Console (Compressing "ninth.png" 2048)])
  /\ currentImageCount
       (attachments
          (exec (resumeImage shrinkingCompressor
                   (AwaitingCompressor f2 (mkOptions 85 2048)))
                (exec (resumeImage shrinkingCompressor
                         (AwaitingCompressor f1 (mkOptions 85 2048))) st)))
     = 9%nat.
Proof.
  intros st f1 f2.
  assert (currentImageCount (attachments st) = 7%nat) as Hcount by reflexivity.
  assert (file_type f1 ∈ SUPPORTED_TYPES) as Hty1
    by (apply arr_indexOf_present; reflexivity).
  assert (file_type f2 ∈ SUPPORTED_TYPES) as Hty2
    by (apply arr_indexOf_present; reflexivity).
  assert (file_size f1 <= MAX_SIZE_BYTES)%N as Hsz1 by (vm_compute; discriminate).
  assert (file_size f2 <= MAX_SIZE_BYTES)%N as Hsz2 by (vm_compute; discriminate).
  split; [exact Hcount |].
  exact (overlapping_image_calls shrinkingCompressor st f1 f2
           Hty1 Hty2 Hsz1 Hsz2 eq_refl Hcount).
Defined.

Lemma remove_button_removes_its_item_witness :
  let st := holding twoLinks in
  (1 < length (attachments st))%nat
  /\ attachmentIndexText 1 = "1"
  /\ attachments (exec (onRemoveClick (Some "1")) st)
     = [linkRecord TYoutube "https://youtu.be/abc123"].
Proof.
  intros st.
  assert (1 < length (attachments st))%nat as H by (vm_compute; lia).
  split; [exact H |]. split; [reflexivity |].
  destruct (remove_button_removes_its_item st 1 H) as (_ & Hdel & _).
  exact Hdel.
Defined.

Lemma remove_button_without_index_witness :
  let st := holding twoLinks in
  JSNumber.parseInt "first" = None
  /\ attachments (exec (onRemoveClick (Some "first")) st)
     = [linkRecord TWikipedia "https://en.wikipedia.org/wiki/Kea"].
Proof.
  intros st.
  assert (JSNumber.parseInt "first" = None) as H by reflexivity.
  split; [exact H |].
  destruct (remove_button_without_index st) as (_ & _ & Hnan).
  exact (Hnan "first" H).
Defined.

(** A manager reached by picking three text files of 3 MiB, one reached by
    picking a text file, an image and a link. *)
Lemma reachable_three_files :
  reachable signatureSniffer failingCompressor
    (exec (run signatureSniffer failingCompressor
             (OpFileInputChange [textFile "a.txt" (3 * MiB); textFile "b.txt" (3 * MiB);
                                 textFile "c.txt" (3 * MiB)]))
          AttachmentManager).
Proof. apply reachable_step, reachable_start. Defined.

Lemma reachable_mixed :
  reachable signatureSniffer shrinkingCompressor
    (exec (run signatureSniffer shrinkingCompressor
             (OpShowYoutubeModal (Some "https://youtu.be/abc123")))
       (exec (run signatureSniffer shrinkingCompressor
                (OpAddAttachment KImage (pngImage "photo.png" 2048)))
          (exec (run signatureSniffer shrinkingCompressor
                   (OpAddAttachment KFile (textFile "notes.txt" 2048)))
                AttachmentManager))).
Proof. do 3 apply reachable_step. apply reachable_start. Defined.

Lemma reachable_total_size_witness :
  currentTotalSize
    (attachments
       (exec (run signatureSniffer failingCompressor
                (OpFileInputChange [textFile "a.txt" (3 * MiB); textFile "b.txt" (3 * MiB);
                                    textFile "c.txt" (3 * MiB)]))
             AttachmentManager))
  = (9 * MiB)%N
  /\ (currentTotalSize
        (attachments
           (exec (run signatureSniffer failingCompressor
                    (OpFileInputChange [textFile "a.txt" (3 * MiB);
                                        textFile "b.txt" (3 * MiB);
                                        textFile "c.txt" (3 * MiB)]))
                 AttachmentManager))
      <= 10 * MiB)%N.
Proof.
  split; [reflexivity |].
  exact (reachable_total_size signatureSniffer failingCompressor _ reachable_three_files).
Defined.

Lemma reachable_image_records_witness :
  exists f,
    att_file (fileRecord TImage
                (newFile (mkBlob 204 "image/jpeg" (fun _ => x00)) "photo.png" "image/jpeg")
                "photo.png") = Some f
    /\ (file_size f <= 10 * MiB)%N.
Proof.
  destruct (reachable_image_records signatureSniffer shrinkingCompressor _
              (fileRecord TImage
                 (newFile (mkBlob 204 "image/jpeg" (fun _ => x00)) "photo.png" "image/jpeg")
                 "photo.png")
              reachable_mixed) as (f & Hfile & _ & _ & Hsz).
  - apply list_elem_of_further, list_elem_of_here.
  - reflexivity.
  - exists f. split; [exact Hfile | exact Hsz].
Defined.

Lemma reachable_file_records_witness :
  exists f,
    att_file (fileRecord TFile (textFile "notes.txt" 2048) "notes.txt") = Some f
    /\ getFileExtension (file_name f) ∈ SUPPORTED_TEXT_EXTENSIONS
    /\ signatureSniffer f = None.
Proof.
  destruct (reachable_file_records signatureSniffer shrinkingCompressor _
              (fileRecord TFile (textFile "notes.txt" 2048) "notes.txt")
              reachable_mixed) as (f & Hfile & _ & _ & Hext & Hsniff & _).
  - apply list_elem_of_here.
  - reflexivity.
  - exists f. split; [exact Hfile |]. split; [exact Hext | exact Hsniff].
Defined.

Lemma reachable_link_records_witness :
  att_file (linkRecord TYoutube "https://youtu.be/abc123") = None
  /\ att_name (linkRecord TYoutube "https://youtu.be/abc123") = None.
Proof.
  destruct (reachable_link_records signatureSniffer shrinkingCompressor _
              (linkRecord TYoutube "https://youtu.be/abc123")
              reachable_mixed) as (Hfile & Hname & _).
  - do 2 apply list_elem_of_further. apply list_elem_of_here.
  - left. reflexivity.
  - split; [exact Hfile | exact Hname].
Defined.

Lemma image_batch_fills_to_limit_witness :
  let files := replicate 10 (pngImage "photo.png" 2048) in
  let batch := onImageInputChange signatureSniffer failingCompressor files in
  currentImageCount (attachments (exec batch AttachmentManager)) = 8%nat
  /\ length (attachments (exec batch AttachmentManager)) = 8%nat
  /\ alerts (trace batch AttachmentManager) = [TooManyImages; TooManyImages].
Proof.
  intros files batch.
  assert (Forall (fun f => file_type f ∈ SUPPORTED_TYPES /\ (file_size f <= 10 * MiB)%N)
                 files) as Hall.
  { apply Forall_replicate. split.
    - apply arr_indexOf_present. reflexivity.
    - vm_compute. discriminate. }
  assert (currentImageCount (attachments AttachmentManager) <= 8)%nat as Hk
    by (vm_compute; lia).
  exact (image_batch_fills_to_limit signatureSniffer failingCompressor files
           AttachmentManager Hall Hk).
Defined.

Lemma uncompressed_image_kept_witness :
  let st := exec (onCompressToggle false) AttachmentManager in
  let file := pngImage "photo.png" 2048 in
  compressImages st = false
  /\ attachments (exec (addAttachment signatureSniffer shrinkingCompressor KImage file) st)
     = [fileRecord TImage file "photo.png"].
Proof.
  intros st file.
  assert (compressImages st = false) as Hoff by reflexivity.
  split; [exact Hoff |]. unfold exec at 1.
  rewrite (uncompressed_image_kept signatureSniffer shrinkingCompressor st file).
  - reflexivity.
  - apply arr_indexOf_present. reflexivity.
  - vm_compute. discriminate.
  - vm_compute. lia.
  - exact Hoff.
Defined.

Lemma image_uses_current_settings_witness :
  let file := pngImage "photo.png" 2048 in
  let st' := exec (onDimensionInput 1024)
               (exec (onQualityInput 60) (exec (onCompressToggle true) AttachmentManager)) in
  compressionOptions st' = mkOptions 60 1024
  /\ exists stored,
       attachments (exec (addAttachment signatureSniffer shrinkingCompressor KImage file) st')
       = [fileRecord TImage stored "photo.png"]
       /\ file_size stored = 204%N.
Proof.
  intros file st'. split; [reflexivity |].
  destruct (image_uses_current_settings signatureSniffer shrinkingCompressor
              AttachmentManager file) as (_ & Hsliders).
  - apply arr_indexOf_present. reflexivity.
  - vm_compute. discriminate.
  - vm_compute. lia.
  - destruct (Hsliders 60 1024) as (_ & stored & Hatts & Hstored).
    exists stored. split; [exact Hatts |].
    simpl in Hstored. rewrite Hstored. reflexivity.
Defined.

Lemma clear_resets_limits_witness :
  let st := holding eightImages in
  let file := pngImage "ninth.png" 2048 in
  currentImageCount (attachments st) = 8%nat
  /\ exists stored,
       attachments
         (exec (addAttachment signatureSniffer failingCompressor KImage file)
               (exec clearAttachments st))
       = [fileRecord TImage stored "ninth.png"].
Proof.
  intros st file. split; [reflexivity |].
  destruct (clear_resets_limits signatureSniffer failingCompressor st file)
    as (_ & _ & Himage).
  apply Himage.
  - apply arr_indexOf_present. reflexivity.
  - vm_compute. discriminate.
Defined.

Lemma indicator_tells_flags_witness :
  useDatabase (holding twoLinks) = useDatabase AttachmentManager
  /\ useSearch (holding twoLinks) = useSearch AttachmentManager
  /\ updateIndicator (holding twoLinks) = updateIndicator AttachmentManager.
Proof.
  assert (useDatabase (holding twoLinks) = useDatabase AttachmentManager
          /\ useSearch (holding twoLinks) = useSearch AttachmentManager) as H
    by (split; reflexivity).
  destruct (indicator_tells_flags signatureSniffer failingCompressor) as (Hiff & _).
  destruct H as [Hd Hs]. split; [exact Hd |]. split; [exact Hs |].
  apply (proj2 (Hiff (holding twoLinks) AttachmentManager)). split; [exact Hd | exact Hs].
Defined.

Lemma remove_last_undoes_push_witness :
  let st := holding twoLinks in
  attachments st
  = [linkRecord TYoutube "https://youtu.be/abc123"]
      ++ [linkRecord TWikipedia "https://en.wikipedia.org/wiki/Kea"]
  /\ attachments (exec (removeAttachment 1) st)
     = [linkRecord TYoutube "https://youtu.be/abc123"]
  /\ attachments (exec (removeAttachment (-1)) st)
     = [linkRecord TYoutube "https://youtu.be/abc123"].
Proof.
  intros st.
  assert (attachments st
          = [linkRecord TYoutube "https://youtu.be/abc123"]
              ++ [linkRecord TWikipedia "https://en.wikipedia.org/wiki/Kea"]) as H
    by reflexivity.
  split; [exact H |].
  exact (remove_last_undoes_push st _ _ H).
Defined.

Lemma removal_frees_budget_witness :
  let st := holding threeTextFiles in
  0 <= 1
  /\ attachments st !! Z.to_nat 1
     = Some (fileRecord TFile (textFile "b.txt" (3 * MiB)) "b.txt")
  /\ currentTotalSize (attachments st) = (9 * MiB)%N
  /\ (currentTotalSize (attachments (exec (removeAttachment 1) st)) + 3 * MiB
      = currentTotalSize (attachments st))%N.
Proof.
  intros st.
  assert (0 <= 1) as Hpos by discriminate.
  assert (attachments st !! Z.to_nat 1
          = Some (fileRecord TFile (textFile "b.txt" (3 * MiB)) "b.txt")) as Ha
    by reflexivity.
  split; [exact Hpos |]. split; [exact Ha |]. split; [reflexivity |].
  destruct (removal_frees_budget st 1 _ Hpos Ha) as (Hsize & _).
  exact Hsize.
Defined.

Lemma paths_accept_disjoint_witness :
  let file := textFile "notes.txt" 2048 in
  attachments (exec (addAttachment signatureSniffer failingCompressor KFile file)
                    AttachmentManager)
  = attachments AttachmentManager ++ [fileRecord TFile file "notes.txt"]
  /\ addAttachment signatureSniffer failingCompressor KImage file AttachmentManager
     = (tt, AttachmentManager, [Alert (UnsupportedImageFormat "text/plain")]).
Proof.
  intros file.
  assert (attachments
            (exec (addAttachment signatureSniffer failingCompressor KFile file)
                  AttachmentManager)
          = attachments AttachmentManager ++ [fileRecord TFile file "notes.txt"]) as H
    by reflexivity.
  split; [exact H |].
  destruct (paths_accept_disjoint signatureSniffer failingCompressor file)
    as (Hfile & _).
  exact (Hfile AttachmentManager _ H AttachmentManager).
Defined.

Lemma getFileIcon_classes_witness :
  ("toml" ∉ KNOWN_ICONS)
  /\ getFileIcon "toml" = "bi bi-file-earmark-code"
  /\ ("py" ∈ KNOWN_ICONS)
  /\ "py" = "py".
Proof.
  assert ("toml" ∉ KNOWN_ICONS) as Hout by (apply arr_indexOf_absent; reflexivity).
  assert ("py" ∈ KNOWN_ICONS) as Hin by (apply arr_indexOf_present; reflexivity).
  destruct getFileIcon_classes as (Hgeneric & Hdistinct & _).
  split; [exact Hout |]. split; [exact (proj2 (Hgeneric "toml") Hout) |].
  split; [exact Hin |]. exact (Hdistinct "py" "py" Hin eq_refl).
Defined.
